(** * income-tracker: payment extraction and deduplication pipeline

    A shallow embedding of the core of [income_tracker]:

    - [models/payment.py]: [PaymentSource], [PaymentRecord], [PaymentPattern];
    - [core/payment_processor.py]: provider table, classification, amount and
      payer-name extraction, record construction;
    - [storage/excel_handler.py]: the spreadsheet-backed record store;
    - [core/tracker.py]: one check cycle over all supported senders.

    Python text is modelled by [string] over the code points 0..255. The
    standard-library pieces the code calls ([re], [decimal.Decimal],
    [float], [str.lower], [str.strip]) are modelled executably, for the
    fragment the program uses, and the stateful collaborators (mailbox, clock,
    spreadsheet file) by explicit state and environment records. *)

From Stdlib Require Import ZArith NArith Bool Ascii String Lia.
From Corelib Require Import SpecFloat.
From stdpp Require Import base option list strings gmap sorting.

Open Scope string_scope.

(** ** Text: the [str] operations used by the program *)

Module Text.

Definition code (a : ascii) : N := N_of_ascii a.

Definition in_range (lo hi : N) (a : ascii) : bool :=
  (lo <=? code a)%N && (code a <=? hi)%N.

(** [str.lower] on one code point: A-Z and the Latin-1 capitals
    (U+00C0..U+00DE without the multiplication sign U+00D7). *)
Definition lower_char (a : ascii) : ascii :=
  if in_range 65 90 a || (in_range 192 222 a && negb (code a =? 215)%N)
  then ascii_of_N (code a + 32) else a.

(** Simple upper-case mapping, as the regex engine applies it; code points
    whose capital lies outside 0..255 are left unchanged. *)
Definition upper_char (a : ascii) : ascii :=
  if in_range 97 122 a || (in_range 224 254 a && negb (code a =? 247)%N)
  then ascii_of_N (code a - 32) else a.

Fixpoint lower (s : string) : string :=
  match s with
  | EmptyString => EmptyString
  | String a s' => String (lower_char a) (lower s')
  end.

(** [str.isspace] / the class [\s] of a [str] pattern, on 0..255. *)
Definition is_space (a : ascii) : bool :=
  in_range 9 13 a || in_range 28 32 a || (code a =? 133)%N || (code a =? 160)%N.

Definition is_digit (a : ascii) : bool := in_range 48 57 a.

Fixpoint starts_with (p s : string) : bool :=
  match p, s with
  | EmptyString, _ => true
  | String a p', String b s' => if Ascii.eqb a b then starts_with p' s' else false
  | String _ _, EmptyString => false
  end.

(** Python's [sub in s]. *)
Fixpoint contains (sub s : string) : bool :=
  starts_with sub s ||
  match s with
  | EmptyString => false
  | String _ s' => contains sub s'
  end.

Fixpoint lstrip (s : string) : string :=
  match s with
  | String a s' => if is_space a then lstrip s' else s
  | EmptyString => EmptyString
  end.

Fixpoint rstrip (s : string) : string :=
  match s with
  | EmptyString => EmptyString
  | String a s' =>
      match rstrip s' with
      | EmptyString => if is_space a then EmptyString else String a EmptyString
      | t => String a t
      end
  end.

(** [str.strip()] with the default whitespace. *)
Definition strip (s : string) : string := rstrip (lstrip s).

(** [s.replace(c, '')] for a one-character [c]. *)
Fixpoint remove_char (c : ascii) (s : string) : string :=
  match s with
  | EmptyString => EmptyString
  | String a s' => if Ascii.eqb a c then remove_char c s' else String a (remove_char c s')
  end.

Fixpoint take (n : nat) (s : string) : string :=
  match n, s with
  | S n', String a s' => String a (take n' s')
  | _, _ => EmptyString
  end.

(** The part of [s] consumed when the remaining input is its suffix [s']. *)
Definition consumed (s s' : string) : string :=
  take (String.length s - String.length s') s.

Fixpoint all_chars (p : ascii -> bool) (s : string) : bool :=
  match s with
  | EmptyString => true
  | String a s' => p a && all_chars p s'
  end.

End Text.

(** ** Regular expressions: the fragment of [re] the provider patterns use

    Literals, character classes with ranges and [\s], concatenation,
    alternation, greedy [*] (so [+] and [?]), capturing groups, matched by
    backtracking in Python's priority order. *)

Module Re.
Import Text.

Inductive citem : Type :=
| CChar (c : ascii)
| CRange (lo hi : ascii)
| CSpace.

Inductive regex : Type :=
| Eps
| Chr (cs : list citem)
| Seq (r1 r2 : regex)
| Alt (r1 r2 : regex)
| Star (r : regex)
| Group (i : nat) (r : regex).

Definition Plus (r : regex) : regex := Seq r (Star r).
Definition Opt (r : regex) : regex := Alt r Eps.
Definition Lit (c : ascii) : regex := Chr [CChar c].

(** A literal word, character by character. *)
Fixpoint Word (w : string) : regex :=
  match w with
  | EmptyString => Eps
  | String a EmptyString => Lit a
  | String a w' => Seq (Lit a) (Word w')
  end.

Definition item_matches (a : ascii) (it : citem) : bool :=
  match it with
  | CChar c => Ascii.eqb a c
  | CRange lo hi => in_range (code lo) (code hi) a
  | CSpace => is_space a
  end.

(** One character against a class; [ic] is [re.IGNORECASE]: the engine
    tries the lower-cased and then the upper-cased character. *)
Definition class_matches (ic : bool) (cs : list citem) (a : ascii) : bool :=
  if ic
  then existsb (item_matches (lower_char a)) cs || existsb (item_matches (upper_char a)) cs
  else existsb (item_matches a) cs.

(** Captures: group number to the text it matched last. *)
Abbreviation captures := (gmap nat string).

Section Matcher.
Context {R : Type}.
Variable ic : bool.

(** [run r s c k]: match [r] at the front of [s] with captures [c], then
    continue with [k] on the rest; [None] makes the engine backtrack.
    An iteration of [Star] that consumed nothing ends the loop. *)
Fixpoint run (r : regex) (s : string) (c : captures)
         (k : string -> captures -> option R) {struct r} : option R :=
  match r with
  | Eps => k s c
  | Chr cs =>
      match s with
      | String a s' => if class_matches ic cs a then k s' c else None
      | EmptyString => None
      end
  | Seq r1 r2 => run r1 s c (fun s' c' => run r2 s' c' k)
  | Alt r1 r2 =>
      match run r1 s c k with
      | Some x => Some x
      | None => run r2 s c k
      end
  | Star r' =>
      (fix loop (fuel : nat) (s : string) (c : captures) {struct fuel} : option R :=
         match fuel with
         | O => k s c
         | S fuel' =>
             match run r' s c (fun s' c' =>
                     if (String.length s' <? String.length s)%nat
                     then loop fuel' s' c' else k s' c') with
             | Some x => Some x
             | None => k s c
             end
         end) (String.length s) s c
  | Group i r' => run r' s c (fun s' c' => k s' (<[i := consumed s s']> c'))
  end.
End Matcher.

(** Number of capturing groups: the largest group number. *)
Fixpoint ngroups (r : regex) : nat :=
  match r with
  | Eps | Chr _ => 0
  | Seq r1 r2 | Alt r1 r2 => Nat.max (ngroups r1) (ngroups r2)
  | Star r' => ngroups r'
  | Group i r' => Nat.max i (ngroups r')
  end.

(** A match object: its captures and the group count of its pattern. *)
Record Match : Type := { m_caps : captures; m_ngroups : nat }.

(** [re.search(pattern, text, flags)]: the leftmost position at which the
    pattern matches. *)
Fixpoint search_at (ic : bool) (r : regex) (s : string) : option Match :=
  match run ic r s ∅ (fun _ c => Some c) with
  | Some c => Some {| m_caps := c; m_ngroups := ngroups r |}
  | None =>
      match s with
      | EmptyString => None
      | String _ s' => search_at ic r s'
      end
  end.

Definition search (r : regex) (text : string) (ignorecase : bool) : option Match :=
  search_at ignorecase r text.

(** [match.group(i)] for [i >= 1]: [IndexError] when the pattern has no such
    group, else the captured text or Python's [None]. *)
Inductive group_result : Type :=
| NoSuchGroup
| GroupIs (g : option string).

Definition group (m : Match) (i : nat) : group_result :=
  if (i <=? m_ngroups m)%nat then GroupIs (m_caps m !! i) else NoSuchGroup.

(** [match.groups()]: groups 1..n, [None] for those that took no part. *)
Definition groups (m : Match) : list (option string) :=
  (fun i => m_caps m !! i) <$> seq 1 (m_ngroups m).

End Re.

(** ** Decimal numbers: [decimal.Decimal] and its conversion to [float] *)

Module Dec.
Import Text.

Inductive special : Type := Infinity | QuietNaN | SignalingNaN.

(** A [Decimal]: sign, coefficient and exponent (the value is
    [coeff * 10 ^ exp]), or a special value with its diagnostic digits. *)
Inductive Decimal : Type :=
| Finite (sign : bool) (coeff : N) (exp : Z)
| Special (sign : bool) (k : special) (diag : N).

Fixpoint span_digits (s : string) : string * string :=
  match s with
  | String a s' =>
      if is_digit a
      then let '(d, r) := span_digits s' in (String a d, r)
      else (EmptyString, s)
  | EmptyString => (EmptyString, EmptyString)
  end.

Fixpoint digits_value (acc : N) (s : string) : N :=
  match s with
  | String a s' => digits_value (10 * acc + (code a - 48))%N s'
  | EmptyString => acc
  end.

Definition split_sign (s : string) : bool * string :=
  match s with
  | String a r =>
      if Ascii.eqb a "+" then (false, r)
      else if Ascii.eqb a "-" then (true, r)
      else (false, s)
  | EmptyString => (false, s)
  end.

(** The exponent part: empty, or [e]/[E], an optional sign and at least one
    digit, up to the end of the string. *)
Definition parse_exponent (s : string) : option Z :=
  match s with
  | EmptyString => Some 0%Z
  | String a r =>
      if Ascii.eqb (lower_char a) "e"
      then let '(neg, r') := split_sign r in
           match span_digits r' with
           | (String d ds, EmptyString) =>
               let v := Z.of_N (digits_value 0 (String d ds)) in
               Some (if neg then (- v)%Z else v)
           | _ => None
           end
      else None
  end.

Definition parse_number (sign : bool) (s : string) : option Decimal :=
  let '(int, r) := span_digits s in
  let '(frac, r') :=
    match r with
    | String a r1 => if Ascii.eqb a "." then span_digits r1 else (EmptyString, r)
    | EmptyString => (EmptyString, r)
    end in
  match String.append int frac with
  | EmptyString => None
  | ds =>
      match parse_exponent r' with
      | Some e => Some (Finite sign (digits_value 0 ds) (e - Z.of_nat (String.length frac)))
      | None => None
      end
  end.

Definition parse_special (sign : bool) (s : string) : option Decimal :=
  let l := lower s in
  if String.eqb l "inf" || String.eqb l "infinity" then Some (Special sign Infinity 0)
  else if starts_with "nan" l then
    match span_digits (String.substring 3 (String.length l - 3) l) with
    | (d, EmptyString) => Some (Special sign QuietNaN (digits_value 0 d))
    | _ => None
    end
  else if starts_with "snan" l then
    match span_digits (String.substring 4 (String.length l - 4) l) with
    | (d, EmptyString) => Some (Special sign SignalingNaN (digits_value 0 d))
    | _ => None
    end
  else None.

(** [Decimal(text)]: [None] stands for [decimal.InvalidOperation]. Leading
    and trailing whitespace and underscores are dropped first. *)
Definition of_string (text : string) : option Decimal :=
  let '(sign, r) := split_sign (remove_char "_" (strip text)) in
  match parse_number sign r with
  | Some d => Some d
  | None => parse_special sign r
  end.

(** Binary64. *)
Definition prec : Z := 53.
Definition emax : Z := 1024.
Definition float : Type := spec_float.

Definition float_eqb (x y : float) : bool := SFeqb x y.
Definition float_add (x y : float) : float := SFadd prec emax x y.
Definition float_div (x y : float) : float := SFdiv prec emax x y.
Definition float_of_nat (n : nat) : float :=
  binary_normalize prec emax (Z.of_nat n) 0 false.

(** [float(d)]: the binary64 nearest to the decimal value (ties to even);
    [None] stands for the [ValueError] on a signaling NaN. *)
Definition to_float (d : Decimal) : option float :=
  match d with
  | Finite s c e =>
      Some match c with
           | N0 => S754_zero s
           | Npos m =>
               match e with
               | Zneg k => SFdiv prec emax (S754_finite s m 0)
                                 (S754_finite false (Pos.pow 10 k) 0)
               | _ => binary_normalize prec emax
                        (if s then Z.neg m * 10 ^ e else Z.pos m * 10 ^ e)%Z 0 s
               end
           end
  | Special s Infinity _ => Some (S754_infinity s)
  | Special _ QuietNaN _ => Some S754_nan
  | Special _ SignalingNaN _ => None
  end.

End Dec.

Import Text Re Dec.

(** ** Exceptions *)

(** Why [PaymentProcessor.extract_amount] gave up: no match of the amount
    pattern ("Could not extract payment amount from text"), or a matched text
    that is no decimal ("Invalid amount format: ..."). *)
Inductive processor_error : Type :=
| AmountNotFound
| AmountMalformed (amount_str : string).

Inductive exn : Type :=
| EmailConnectionError
| StorageError
| PaymentProcessorError (why : processor_error)
| AttributeError
| IndexError
| KeyError
| ValueError
| TypeError
| UnicodeDecodeError
| OSError
| OverflowError.

(** The outcome of a call: a returned value or a raised exception. *)
Inductive res (A : Type) : Type :=
| Val (a : A)
| Exc (e : exn).
Arguments Val {A} a.
Arguments Exc {A} e.

(** ** models/payment.py *)

Record DateTime : Type := {
  year : nat; month : nat; day : nat;
  hour : nat; minute : nat; second : nat }.

Definition digit_char (n : nat) : ascii := ascii_of_nat (48 + n mod 10).

Definition pad2 (n : nat) : string :=
  String (digit_char (n / 10)) (String (digit_char n) EmptyString).

Definition pad4 (n : nat) : string :=
  String (digit_char (n / 1000)) (String (digit_char (n / 100)) (pad2 n)).

(** [dt.strftime("%Y-%m-%d")] *)
Definition strftime_date (dt : DateTime) : string :=
  pad4 (year dt) ++ "-" ++ pad2 (month dt) ++ "-" ++ pad2 (day dt).

(** [dt.strftime("%Y-%m-%d %H:%M:%S")] *)
Definition strftime_datetime (dt : DateTime) : string :=
  strftime_date dt ++ " " ++ pad2 (hour dt) ++ ":" ++ pad2 (minute dt) ++ ":" ++ pad2 (second dt).

Inductive PaymentSource : Type := ZELLE | VENMO | CASHAPP | PAYPAL.

(** [source.value] *)
Definition value (s : PaymentSource) : string :=
  match s with
  | ZELLE => "Zelle"
  | VENMO => "Venmo"
  | CASHAPP => "CashApp"
  | PAYPAL => "PayPal"
  end.

Record PaymentRecord : Type := {
  date : DateTime;
  amount : Decimal;
  source : PaymentSource;
  client_name : string;
  email_subject : string;
  processed_at : DateTime }.

(** A spreadsheet cell or data-frame entry. *)
Inductive Cell : Type :=
| CStr (s : string)
| CDec (d : Decimal)
| CNum (f : float)
| CNaN.

(** [PaymentRecord.to_dict] *)
Definition to_dict (r : PaymentRecord) : gmap string Cell :=
  <["Date" := CStr (strftime_date (date r))]>
  (<["Amount" := CDec (amount r)]>
  (<["Source" := CStr (value (source r))]>
  (<["Client Name" := CStr (client_name r)]>
  (<["Email Subject" := CStr (email_subject r)]>
  (<["Processed Date" := CStr (strftime_datetime (processed_at r))]> ∅))))).

Record PaymentPattern : Type := {
  from_emails : gset string;
  subject_keywords : gset string;
  amount_pattern : regex;
  name_pattern : regex }.

(** [any(x in text for x in xs)] over a frozenset. *)
Definition any_contained (xs : gset string) (text : string) : bool :=
  existsb (fun x => contains x text) (elements xs).

Definition matches_sender (p : PaymentPattern) (from_email : string) : bool :=
  any_contained (from_emails p) (lower from_email).

Definition matches_subject (p : PaymentPattern) (subject : string) : bool :=
  any_contained (subject_keywords p) (lower subject).

(** ** The record store's data: a [pandas.DataFrame] and the spreadsheet file *)

Record DataFrame : Type := {
  columns : list string;
  rows : list (gmap string Cell) }.

(** The six columns of the ledger, [ExcelStorageHandler.columns]. *)
Definition ledger_columns : list string :=
  ["Date"; "Amount"; "Source"; "Client Name"; "Email Subject"; "Processed Date"].

(** [pd.DataFrame(columns=self.columns)] *)
Definition empty_frame : DataFrame := {| columns := ledger_columns; rows := [] |}.

(** [pd.DataFrame([d])]: one row, its columns in the dictionary's order. *)
Definition frame_of_dict (cols : list string) (d : gmap string Cell) : DataFrame :=
  {| columns := cols; rows := [d] |}.

(** [pd.concat([df, new], ignore_index=True)]: the rows of both, over the
    union of the columns. *)
Definition concat (df new : DataFrame) : DataFrame :=
  {| columns := columns df ++ filter (fun c => c ∉ columns df) (columns new);
     rows := rows df ++ rows new |}.

(** [df[col]]: the column as a series ([NaN] where a row has no entry), or
    [KeyError]. *)
Definition column (df : DataFrame) (col : string) : res (list Cell) :=
  if decide (col ∈ columns df)
  then Val ((fun r => default CNaN (r !! col)) <$> rows df)
  else Exc KeyError.

(** What a cell holds once written to the sheet and read back: a number is
    kept as a binary64; text is text. *)
Definition stored_cell (c : Cell) : Cell :=
  match c with
  | CDec d => match to_float d with Some f => CNum f | None => CNaN end
  | c => c
  end.

Definition stored_frame (df : DataFrame) : DataFrame :=
  {| columns := columns df; rows := (fun r : gmap string Cell => stored_cell <$> r) <$> rows df |}.

(** The spreadsheet at [file_path]: the frame it holds and whether
    [pd.read_excel] currently succeeds on it. *)
Record ExcelFile : Type := {
  sheet : DataFrame;
  readable : bool }.

(** ** Logging *)

Inductive log_entry : Type :=
| warn_date_unparsed (date_header : string)
| error_process_failed (src : PaymentSource) (why : processor_error)
| info_record_exists (r : PaymentRecord)
| info_record_saved (r : PaymentRecord)
| warn_exists_check_failed (e : exn)
| warn_load_failed
| error_stats_failed (e : exn)
| debug_found (sender : string) (n : nat)
| info_new_payment (r : PaymentRecord)
| error_save_failed (e : exn)
| error_connection (sender : string) (e : exn)
| error_unexpected (sender : string) (e : exn).

(** ** The mailbox *)

(** What [email_message.get(name, default)] returns: a [str], or an
    [email.header.Header] object when the raw header holds non-ASCII bytes. *)
Inductive header_value : Type :=
| HStr (s : string)
| HHeader.

(** A fetched message, by what the accessors of [EmailClient] and of the
    [email] package give on it. *)
Record EmailMessage : Type := {
  msg_from : header_value;              (* get("From", default) *)
  msg_date : header_value;              (* get("Date", default) *)
  decode_subject : res string;          (* EmailClient.decode_subject *)
  extract_body : res string }.          (* EmailClient.extract_body *)

(** ** State and environment *)

(** The mutable state one tracker process works on. *)
Record World : Type := {
  processed_emails : gset string;       (* IncomeTracker.processed_emails *)
  excel : ExcelFile;                    (* the file at excel_file_path *)
  ticks : nat;                          (* clock reads so far *)
  log : list log_entry }.               (* most recent first *)

(** What the process reads from outside. *)
Record Env : Type := {
  clock : nat -> DateTime;                              (* datetime.now() at the n-th read *)
  parsedate_to_datetime : string -> option DateTime;    (* None: ValueError or TypeError *)
  parsedate_overflow : string -> bool;                  (* the parser raises OverflowError *)
  search_emails : string -> res (list string);          (* EmailClient.search_emails *)
  fetch_email : string -> res (option EmailMessage);    (* EmailClient.fetch_email *)
  write_ok : DataFrame -> bool;                         (* does writing this frame succeed *)
  partial_write : ExcelFile -> DataFrame -> ExcelFile }. (* the file a failed write leaves *)

(** Computations that read and update the [World] and may raise; what was
    updated before a raise stays updated. *)
Definition M (A : Type) : Type := World -> res A * World.

#[global] Instance M_ret : MRet M := fun A a w => (Val a, w).
#[global] Instance M_bind : MBind M := fun A B f m w =>
  match m w with
  | (Val a, w') => f a w'
  | (Exc e, w') => (Exc e, w')
  end.

Definition raise {A : Type} (e : exn) : M A := fun w => (Exc e, w).

Definition lift {A : Type} (r : res A) : M A := fun w => (r, w).

(** [try: m  except <those e with h e = Some k>: k] *)
Definition try_except {A : Type} (m : M A) (h : exn -> option (M A)) : M A :=
  fun w =>
    match m w with
    | (Exc e, w') => match h e with Some k => k w' | None => (Exc e, w') end
    | r => r
    end.

Definition logger (entry : log_entry) : M unit := fun w =>
  (Val tt, {| processed_emails := processed_emails w; excel := excel w;
              ticks := ticks w; log := entry :: log w |}).

Definition get_file : M ExcelFile := fun w => (Val (excel w), w).

Definition put_file (f : ExcelFile) : M unit := fun w =>
  (Val tt, {| processed_emails := processed_emails w; excel := f;
              ticks := ticks w; log := log w |}).

Definition get_processed : M (gset string) := fun w => (Val (processed_emails w), w).

Definition add_processed (email_id : string) : M unit := fun w =>
  (Val tt, {| processed_emails := {[email_id]} ∪ processed_emails w; excel := excel w;
              ticks := ticks w; log := log w |}).

(** [datetime.now()] *)
Definition now (env : Env) : M DateTime := fun w =>
  (Val (clock env (ticks w)),
   {| processed_emails := processed_emails w; excel := excel w;
      ticks := S (ticks w); log := log w |}).

(** ** core/payment_processor.py *)

Module Patterns.

Definition digit : regex := Chr [CRange "0" "9"].
Definition letters : regex := Plus (Chr [CRange "A" "Z"; CRange "a" "z"]).
Definition spaces : regex := Plus (Chr [CSpace]).

(** The amount pattern of every provider: a dollar sign, then group 1 made
    of one or more of [0-9,], an optional dot and any number of [0-9]. *)
Definition amount : regex :=
  Seq (Lit "$")
      (Group 1 (Seq (Plus (Chr [CRange "0" "9"; CChar ","]))
                    (Seq (Opt (Lit ".")) (Star digit)))).

(** A name: two words of [A-Za-z] separated by [\s+], and an optional
    third. *)
Definition full_name : regex :=
  Seq letters (Seq spaces (Seq letters (Opt (Seq spaces letters)))).

(** The name pattern: group 1 is a name followed by [\s+<verb>\s+you], or
    else group 2 is a name after [from\s+]. *)
Definition name (verb : string) : regex :=
  Alt (Seq (Group 1 full_name) (Seq spaces (Seq (Word verb) (Seq spaces (Word "you")))))
      (Seq (Word "from") (Seq spaces (Group 2 full_name))).

End Patterns.

Definition zelle_pattern : PaymentPattern :=
  {| from_emails := {[ "noreply@zellepay.com"; "alert@zellepay.com" ]};
     subject_keywords := {[ "sent you"; "received"; "payment" ]};
     amount_pattern := Patterns.amount;
     name_pattern := Patterns.name "sent" |}.

Definition venmo_pattern : PaymentPattern :=
  {| from_emails := {[ "venmo@venmo.com"; "notifications@venmo.com" ]};
     subject_keywords := {[ "paid you"; "charged you"; "payment" ]};
     amount_pattern := Patterns.amount;
     name_pattern := Patterns.name "paid" |}.

Definition cashapp_pattern : PaymentPattern :=
  {| from_emails := {[ "cash@square.com"; "support@cash.app" ]};
     subject_keywords := {[ "sent you"; "received"; "payment" ]};
     amount_pattern := Patterns.amount;
     name_pattern := Patterns.name "sent" |}.

Definition paypal_pattern : PaymentPattern :=
  {| from_emails := {[ "service@paypal.com"; "paypal@e.paypal.com" ]};
     subject_keywords := {[ "sent you"; "received"; "payment" ]};
     amount_pattern := Patterns.amount;
     name_pattern := Patterns.name "sent" |}.

(** [PaymentProcessor._initialize_patterns]: the table, in the order the
    dictionary is built and iterated. *)
Definition _initialize_patterns : list (PaymentSource * PaymentPattern) :=
  [ (ZELLE, zelle_pattern); (VENMO, venmo_pattern);
    (CASHAPP, cashapp_pattern); (PAYPAL, paypal_pattern) ].

#[global] Instance PaymentSource_eq_dec : EqDecision PaymentSource.
Proof. solve_decision. Defined.

(** The processor object: [self.patterns]. *)
Record PaymentProcessor : Type := { patterns : list (PaymentSource * PaymentPattern) }.

(** [PaymentProcessor()] *)
Definition new_processor : PaymentProcessor := {| patterns := _initialize_patterns |}.

(** [self.patterns[source]] *)
Fixpoint lookup_pattern (tbl : list (PaymentSource * PaymentPattern)) (src : PaymentSource)
  : option PaymentPattern :=
  match tbl with
  | [] => None
  | (s, p) :: tbl' => if decide (s = src) then Some p else lookup_pattern tbl' src
  end.

(** [for source, pattern in self.patterns.items(): if ... return source] *)
Fixpoint first_matching (tbl : list (PaymentSource * PaymentPattern))
         (from_email subject : string) : option PaymentSource :=
  match tbl with
  | [] => None
  | (src, p) :: tbl' =>
      if matches_sender p from_email && matches_subject p subject
      then Some src
      else first_matching tbl' from_email subject
  end.

Definition identify_payment_source (self : PaymentProcessor)
           (from_email subject : string) : option PaymentSource :=
  first_matching (patterns self) from_email subject.

(** [PaymentProcessor.extract_amount]. Besides the two extraction errors,
    [match.group(1)] raises [IndexError] on a pattern without groups, and
    [.replace] raises [AttributeError] when group 1 took no part in the
    match. *)
Definition extract_amount (text : string) (pattern : regex) : res Decimal :=
  match search pattern text false with
  | None => Exc (PaymentProcessorError AmountNotFound)
  | Some m =>
      match group m 1 with
      | NoSuchGroup => Exc IndexError
      | GroupIs None => Exc AttributeError
      | GroupIs (Some g) =>
          let amount_str := remove_char "," g in
          match of_string amount_str with
          | Some d => Val d
          | None => Exc (PaymentProcessorError (AmountMalformed amount_str))
          end
      end
  end.

(** [for group in match.groups(): if group and group.strip(): return group.strip()] *)
Fixpoint first_nonblank (gs : list (option string)) : option string :=
  match gs with
  | [] => None
  | Some g :: gs' =>
      match strip g with
      | EmptyString => first_nonblank gs'
      | name => Some name
      end
  | None :: gs' => first_nonblank gs'
  end.

(** [PaymentProcessor.extract_client_name] *)
Definition extract_client_name (text : string) (pattern : regex) : string :=
  match search pattern text true with
  | Some m =>
      match first_nonblank (groups m) with
      | Some name => name
      | None => "Unknown"
      end
  | None => "Unknown"
  end.

Section Processor.
Variable env : Env.

(** [PaymentProcessor.parse_email_date]; a [Header] object instead of a
    string makes [parsedate_to_datetime] raise [AttributeError], and a year,
    hour or offset too large for a C integer makes it raise [OverflowError];
    neither is among the exceptions handled here. *)
Definition parse_email_date (date_header : header_value) : M DateTime :=
  match date_header with
  | HHeader => raise AttributeError
  | HStr h =>
      if parsedate_overflow env h then raise OverflowError
      else
        match parsedate_to_datetime env h with
        | Some dt => mret dt
        | None => _ ← logger (warn_date_unparsed h); now env
        end
  end.

(** [PaymentProcessor.process_email]. A [Header] object as sender raises
    [AttributeError] at [from_email.lower()], in the first test of the
    classification. *)
Definition process_email (self : PaymentProcessor) (email_message : EmailMessage)
           (body subject : string) : M (option PaymentRecord) :=
  match msg_from email_message with
  | HHeader => raise AttributeError
  | HStr from_email =>
      match identify_payment_source self from_email subject with
      | None => mret None
      | Some src =>
          match lookup_pattern (patterns self) src with
          | None => raise KeyError
          | Some pattern =>
              let combined_text := body ++ " " ++ subject in
              try_except
                (amount ← lift (extract_amount combined_text (amount_pattern pattern));
                 let client_name := extract_client_name combined_text (name_pattern pattern) in
                 payment_date ← parse_email_date (msg_date email_message);
                 processed ← now env;
                 mret (Some {| date := payment_date; amount := amount; source := src;
                               client_name := client_name; email_subject := subject;
                               processed_at := processed |}))
                (fun e => match e with
                          | PaymentProcessorError why =>
                              Some (_ ← logger (error_process_failed src why); mret None)
                          | _ => None
                          end)
          end
      end
  end.

End Processor.

Definition str_le (a b : string) : Prop := String.leb a b = true.

#[global] Instance str_le_dec (a b : string) : Decision (str_le a b).
Proof. unfold str_le. apply _. Defined.

(** [PaymentProcessor.get_supported_senders] *)
Definition get_supported_senders (self : PaymentProcessor) : list string :=
  merge_sort str_le (flat_map (fun sp => elements (from_emails (snd sp))) (patterns self)).

(** ** storage/excel_handler.py *)

(** [series == text], element by element. *)
Definition eq_str (s : string) (c : Cell) : bool :=
  match c with
  | CStr t => String.eqb t s
  | _ => false
  end.

(** [Decimal == float] compares the two values exactly. *)
Definition decimal_eqb_float (d : Decimal) (f : float) : bool :=
  match d, f with
  | Finite _ c _, S754_zero _ => (c =? 0)%N
  | Finite s c e, S754_finite s' m e' =>
      Bool.eqb s s' &&
      (Z.of_N c * 10 ^ Z.max e 0 * 2 ^ Z.max (- e') 0
       =? Z.pos m * 2 ^ Z.max e' 0 * 10 ^ Z.max (- e) 0)%Z
  | Special s Infinity _, S754_infinity s' => Bool.eqb s s'
  | _, _ => false
  end.

(** [series == number], element by element. *)
Definition eq_float (f : float) (c : Cell) : bool :=
  match c with
  | CNum g => float_eqb g f
  | CDec d => decimal_eqb_float d f
  | _ => false
  end.

(** [mask1 & mask2] *)
Definition mask_and (m1 m2 : list bool) : list bool := zip_with andb m1 m2.

(** [mask.any()] *)
Definition any (mask : list bool) : bool := existsb (fun b => b) mask.

(** [float(x)] of a [Decimal]. *)
Definition float_of (d : Decimal) : res float :=
  match to_float d with
  | Some f => Val f
  | None => Exc ValueError
  end.

(** The values of a summary: counts, amounts, the per-provider table, or the
    text of an exception. *)
Inductive stat : Type :=
| SInt (n : nat)
| SFloat (f : float)
| SCounts (by_value : gmap string nat)
| SError (e : exn).

(** The numbers of a series, missing values skipped; text or a [Decimal]
    object among them makes the arithmetic raise [TypeError]. *)
Fixpoint numeric (cells : list Cell) : res (list float) :=
  match cells with
  | [] => Val []
  | CNum f :: cs =>
      match numeric cs with
      | Val fs => Val (if SFeqb f f then f :: fs else fs)
      | Exc e => Exc e
      end
  | CNaN :: cs => numeric cs
  | (CStr _ | CDec _) :: _ => Exc TypeError
  end.

Definition zero : float := S754_zero false.

(** [series.sum()], left to right. *)
Definition sum (fs : list float) : float := fold_left float_add fs zero.

(** [series.mean()] *)
Definition mean (fs : list float) : float :=
  match fs with
  | [] => S754_nan
  | _ => float_div (sum fs) (float_of_nat (length fs))
  end.

Definition fmax (x y : float) : float := if SFltb x y then y else x.
Definition fmin (x y : float) : float := if SFltb y x then y else x.

(** [series.max()] and [series.min()] *)
Definition maximum (fs : list float) : float :=
  match fs with
  | [] => S754_nan
  | f :: fs' => fold_left fmax fs' f
  end.

Definition minimum (fs : list float) : float :=
  match fs with
  | [] => S754_nan
  | f :: fs' => fold_left fmin fs' f
  end.

(** The text values of a series. *)
Definition texts (cells : list Cell) : list string :=
  omap (fun c => match c with CStr s => Some s | _ => None end) cells.

(** [series.nunique()] over text values. *)
Definition nunique (cells : list Cell) : nat := length (remove_dups (texts cells)).

(** [series.value_counts().to_dict()] over text values. *)
Definition value_counts (cells : list Cell) : gmap string nat :=
  fold_right (fun s m => <[s := S (default 0 (m !! s))]> m) ∅ (texts cells).

Section Storage.
Variable env : Env.

(** [ExcelStorageHandler._load_dataframe] *)
Definition _load_dataframe : M DataFrame :=
  f ← get_file;
  if readable f then mret (sheet f)
  else _ ← logger warn_load_failed; mret empty_frame.

(** [ExcelStorageHandler._save_dataframe]: the file is rewritten with the
    frame. The writer opens the file for writing and saves what it has when
    it is left, so a write that raises leaves the file as the failure left
    it: untouched, truncated, or holding part of the frame. *)
Definition _save_dataframe (df : DataFrame) : M unit :=
  if write_ok env df
  then put_file {| sheet := stored_frame df; readable := true |}
  else f ← get_file; _ ← put_file (partial_write env f df); raise OSError.

(** [ExcelStorageHandler.record_exists] *)
Definition record_exists (record : PaymentRecord) : M bool :=
  try_except
    (df ← _load_dataframe;
     dates ← lift (column df "Date");
     amounts ← lift (column df "Amount");
     amount_float ← lift (float_of (amount record));
     sources ← lift (column df "Source");
     names ← lift (column df "Client Name");
     let mask :=
       mask_and (mask_and (mask_and (eq_str (strftime_date (date record)) <$> dates)
                                    (eq_float amount_float <$> amounts))
                          (eq_str (value (source record)) <$> sources))
                (eq_str (client_name record) <$> names) in
     mret (any mask))
    (fun e => Some (_ ← logger (warn_exists_check_failed e); mret false)).

(** The append step of [save_record]: load, concatenate the new row, save. *)
Definition append_record (record : PaymentRecord) : M unit :=
  df ← _load_dataframe;
  let new_row := frame_of_dict ledger_columns (to_dict record) in
  _ ← _save_dataframe (concat df new_row);
  logger (info_record_saved record).

(** [ExcelStorageHandler.save_record] *)
Definition save_record (record : PaymentRecord) : M unit :=
  try_except
    (found ← record_exists record;
     if found : bool return M unit
     then logger (info_record_exists record)
     else append_record record)
    (fun _ => Some (raise StorageError)).

(** [ExcelStorageHandler.get_summary_stats] *)
Definition get_summary_stats : M (gmap string stat) :=
  try_except
    (df ← _load_dataframe;
     if bool_decide (rows df = []) || bool_decide (columns df = [])
     then mret (<["total_records" := SInt 0]> (<["total_amount" := SFloat zero]> ∅))
     else
       amounts ← lift (column df "Amount");
       fs ← lift (numeric amounts);
       names ← lift (column df "Client Name");
       sources ← lift (column df "Source");
       mret (<["total_records" := SInt (length (rows df))]>
            (<["total_amount" := SFloat (sum fs)]>
            (<["average_amount" := SFloat (mean fs)]>
            (<["max_amount" := SFloat (maximum fs)]>
            (<["min_amount" := SFloat (minimum fs)]>
            (<["unique_clients" := SInt (nunique names)]>
            (<["by_source" := SCounts (value_counts sources)]> ∅))))))))
    (fun e => Some (_ ← logger (error_stats_failed e); mret (<["error" := SError e]> ∅))).

End Storage.

(** The file [_create_excel_file] leaves: the header row only. *)
Definition new_file : ExcelFile := {| sheet := empty_frame; readable := true |}.

(** ** core/tracker.py *)

Section Tracker.
Variable env : Env.
Variable payment_processor : PaymentProcessor.

(** The body of the loop over [email_ids] in [process_new_emails], for one
    message identifier. It returns whether [records_processed] was
    incremented. *)
Definition handle_email (email_id : string) : M bool :=
  seen ← get_processed;
  if decide (email_id ∈ seen) return M bool then mret false
  else
    fetched ← lift (fetch_email env email_id);
    match fetched return M bool with
    | None => mret false
    | Some email_message =>
        subject ← lift (decode_subject email_message);
        body ← lift (extract_body email_message);
        payment_record ← process_email env payment_processor email_message body subject;
        incremented ←
          match payment_record return M bool with
          | Some record =>
              try_except
                (_ ← save_record env record;
                 _ ← logger (info_new_payment record);
                 mret true)
                (fun e => match e with
                          | StorageError => Some (_ ← logger (error_save_failed e); mret false)
                          | _ => None
                          end)
          | None => mret false
          end;
        _ ← add_processed email_id;
        mret incremented
    end.

(** [for email_id in email_ids: ...]: the loop stops at the first message
    whose handling raises; [records_processed] and the state keep what the
    earlier messages did. *)
Fixpoint for_each_email (email_ids : list string) (records_processed : nat) (w : World)
  : res unit * nat * World :=
  match email_ids with
  | [] => (Val tt, records_processed, w)
  | email_id :: rest =>
      match handle_email email_id w with
      | (Val incremented, w') =>
          for_each_email rest (if incremented then S records_processed else records_processed) w'
      | (Exc e, w') => (Exc e, records_processed, w')
      end
  end.

(** The body of the loop over senders: the [try] around the search and the
    message loop, with its two handlers. *)
Definition process_sender (sender : string) (records_processed : nat) (w : World)
  : nat * World :=
  let failed (e : exn) (w : World) : World :=
    match e with
    | EmailConnectionError => (logger (error_connection sender e) w).2
    | _ => (logger (error_unexpected sender e) w).2
    end in
  match search_emails env sender with
  | Exc e => (records_processed, failed e w)
  | Val email_ids =>
      let w1 := (logger (debug_found sender (length email_ids)) w).2 in
      match for_each_email email_ids records_processed w1 with
      | (Val _, n, w') => (n, w')
      | (Exc e, n, w') => (n, failed e w')
      end
  end.

Fixpoint for_each_sender (senders : list string) (records_processed : nat) (w : World)
  : nat * World :=
  match senders with
  | [] => (records_processed, w)
  | sender :: rest =>
      let '(n, w') := process_sender sender records_processed w in
      for_each_sender rest n w'
  end.

(** [IncomeTracker.process_new_emails] *)
Definition process_new_emails (w : World) : nat * World :=
  for_each_sender (get_supported_senders payment_processor) 0 w.

End Tracker.

(** A new [IncomeTracker] process over an existing spreadsheet: nothing seen
    yet, the clock at [t]. *)
Definition start_process (file : ExcelFile) (t : nat) : World :=
  {| processed_emails := ∅; excel := file; ticks := t; log := [] |}.

(** * Specification-level notions *)

(** [sub] occurs in [s]. *)
Definition substring_of (sub s : string) : Prop :=
  exists pre post : string, s = pre ++ sub ++ post.

(** What a backtracking run of a pattern can reach: from input [s] with
    captures [c], the pattern consumes a prefix of [s], leaving [s'], and
    leaves the captures [c']. *)
Inductive reach (ic : bool) : regex -> string -> captures -> string -> captures -> Prop :=
| reach_eps s c : reach ic Eps s c s c
| reach_chr cs a s c :
    class_matches ic cs a = true -> reach ic (Chr cs) (String a s) c s c
| reach_seq r1 r2 s c s1 c1 s2 c2 :
    reach ic r1 s c s1 c1 -> reach ic r2 s1 c1 s2 c2 -> reach ic (Seq r1 r2) s c s2 c2
| reach_alt_l r1 r2 s c s' c' :
    reach ic r1 s c s' c' -> reach ic (Alt r1 r2) s c s' c'
| reach_alt_r r1 r2 s c s' c' :
    reach ic r2 s c s' c' -> reach ic (Alt r1 r2) s c s' c'
| reach_star_stop r s c : reach ic (Star r) s c s c
| reach_star_step r s c s1 c1 s2 c2 :
    reach ic r s c s1 c1 -> reach ic (Star r) s1 c1 s2 c2 -> reach ic (Star r) s c s2 c2
| reach_group i r s c s' c' :
    reach ic r s c s' c' -> reach ic (Group i r) s c s' (<[i := consumed s s']> c').

(** A provider pattern accepts a message: one of its sender addresses occurs
    in the lower-cased sender and one of its keywords in the lower-cased
    subject. *)
Definition sender_accepted (p : PaymentPattern) (from_email : string) : Prop :=
  exists sender, sender ∈ from_emails p /\ substring_of sender (lower from_email).

Definition subject_accepted (p : PaymentPattern) (subject : string) : Prop :=
  exists keyword, keyword ∈ subject_keywords p /\ substring_of keyword (lower subject).

Definition accepts (p : PaymentPattern) (from_email subject : string) : Prop :=
  sender_accepted p from_email /\ subject_accepted p subject.

(** A capture group that is missing, empty or only whitespace. *)
Definition blank (g : option string) : Prop :=
  match g with
  | Some t => strip t = EmptyString
  | None => True
  end.


(** The characters a pattern can consume. *)
Fixpoint alphabet (ic : bool) (r : regex) (a : ascii) : bool :=
  match r with
  | Eps => false
  | Chr cs => class_matches ic cs a
  | Seq r1 r2 | Alt r1 r2 => alphabet ic r1 a || alphabet ic r2 a
  | Star r' | Group _ r' => alphabet ic r' a
  end.

(** Characters of a captured amount, and of one without its commas. *)
Definition amount_char (a : ascii) : bool :=
  is_digit a || Ascii.eqb a "," || Ascii.eqb a ".".

Definition number_char (a : ascii) : bool := is_digit a || Ascii.eqb a ".".





(** A float that is not NaN. *)
Definition is_number (f : float) : bool :=
  match f with S754_nan => false | _ => true end.

(** The entry of a row in a column, [NaN] when the row has none. *)
Definition cell (r : gmap string Cell) (col : string) : Cell := default CNaN (r !! col).

(** The columns the existence check reads. *)
Definition key_columns : list string := ["Date"; "Amount"; "Source"; "Client Name"].

Definition has_key_columns (df : DataFrame) : Prop :=
  Forall (fun c => c ∈ columns df) key_columns.

(** A row agrees with a record on date, amount (as binary64 [f]), provider
    and payer name. *)
Definition row_matches (record : PaymentRecord) (f : float) (r : gmap string Cell) : bool :=
  eq_str (strftime_date (date record)) (cell r "Date") &&
  eq_float f (cell r "Amount") &&
  eq_str (value (source record)) (cell r "Source") &&
  eq_str (client_name record) (cell r "Client Name").

Definition with_log (entry : log_entry) (w : World) : World :=
  {| processed_emails := processed_emails w; excel := excel w;
     ticks := ticks w; log := entry :: log w |}.

Definition with_file (f : ExcelFile) (w : World) : World :=
  {| processed_emails := processed_emails w; excel := f;
     ticks := ticks w; log := log w |}.

(** Two states that differ at most in the log. *)
Definition same_but_log (w w' : World) : Prop :=
  processed_emails w' = processed_emails w /\ excel w' = excel w /\ ticks w' = ticks w.

(** What [_load_dataframe] yields in a state, and the state it leaves. *)
Definition loaded (w : World) : DataFrame :=
  if readable (excel w) then sheet (excel w) else empty_frame.

Definition after_load (w : World) : World :=
  if readable (excel w) then w else with_log warn_load_failed w.

(** [pd.DataFrame([record.to_dict()])] *)
Definition new_row (record : PaymentRecord) : DataFrame :=
  frame_of_dict ledger_columns (to_dict record).

(** The row of a record as the sheet holds it. *)
Definition stored_row (record : PaymentRecord) : gmap string Cell :=
  stored_cell <$> to_dict record.

(** The file after a successful write of a frame. *)
Definition written (df : DataFrame) : ExcelFile :=
  {| sheet := stored_frame df; readable := true |}.

(** Two records with the same deduplication key, as the store compares it. *)
Definition same_key (r1 r2 : PaymentRecord) : Prop :=
  strftime_date (date r1) = strftime_date (date r2) /\
  to_float (amount r1) = to_float (amount r2) /\
  source r1 = source r2 /\
  client_name r1 = client_name r2.


(** ** Sample data for the worked instances *)

Definition demo_date : DateTime :=
  {| year := 2024; month := 1; day := 15; hour := 10; minute := 30; second := 0 |}.

Definition demo_record : PaymentRecord :=
  {| date := demo_date; amount := Finite false 7500 (-2); source := ZELLE;
     client_name := "John Smith"; email_subject := "You received a payment";
     processed_at := demo_date |}.

(** An empty mailbox, a clock stuck at [demo_date], a disk that takes every
    write. *)
Definition quiet_env : Env :=
  {| clock := fun _ => demo_date; parsedate_to_datetime := fun _ => None;
     parsedate_overflow := fun _ => false;
     search_emails := fun _ => Val []; fetch_email := fun _ => Val None;
     write_ok := fun _ => true; partial_write := fun file _ => file |}.

(** A ledger that holds [demo_record] but cannot be read at the moment. *)
Definition unreadable_ledger : World :=
  {| processed_emails := ∅;
     excel := {| sheet := stored_frame (concat empty_frame (new_row demo_record));
                 readable := false |};
     ticks := 0; log := [] |}.


#[global] Instance has_key_columns_dec (df : DataFrame) : Decision (has_key_columns df).
Proof. unfold has_key_columns. apply _. Defined.

Definition with_subject (subject : string) (r : PaymentRecord) : PaymentRecord :=
  {| date := date r; amount := amount r; source := source r;
     client_name := client_name r; email_subject := subject;
     processed_at := processed_at r |}.

Definition with_amount (a : Decimal) (r : PaymentRecord) : PaymentRecord :=
  {| date := date r; amount := a; source := source r;
     client_name := client_name r; email_subject := email_subject r;
     processed_at := processed_at r |}.

(** 100000000000000000.00 and 100000000000000000.01 *)
Definition huge_amount : Decimal := Finite false 10000000000000000000 (-2).
Definition huge_amount_plus_cent : Decimal := Finite false 10000000000000000001 (-2).

(** The binary64 values of 75.00 and 75.01. *)
Definition seventy_five : float := S754_finite false 5277655813324800 (-46).
Definition seventy_five_01 : float := S754_finite false 5278359500766577 (-46).

(** The ledger as a table: one list of six cells per row. *)
Definition row_cells (r : gmap string Cell) : list Cell := cell r <$> ledger_columns.

Definition ledger (w : World) : list (list Cell) := row_cells <$> rows (sheet (excel w)).

(** ** Shapes of the summary statistics *)

Definition empty_stats : gmap string stat :=
  <["total_records" := SInt 0]> (<["total_amount" := SFloat zero]> ∅).

Definition full_stats (n : nat) (total avg hi lo : float) (clients : nat)
           (by_source : gmap string nat) : gmap string stat :=
  <["total_records" := SInt n]>
  (<["total_amount" := SFloat total]>
  (<["average_amount" := SFloat avg]>
  (<["max_amount" := SFloat hi]>
  (<["min_amount" := SFloat lo]>
  (<["unique_clients" := SInt clients]>
  (<["by_source" := SCounts by_source]> ∅)))))).

Definition error_stats (e : exn) : gmap string stat := <["error" := SError e]> ∅.

(** The binary64 value of 50.00. *)
Definition fifty : float := S754_finite false 7036874417766400 (-47).

(** The three shapes of a summary. *)
Inductive stats_shape : gmap string stat -> Prop :=
| shape_empty : stats_shape empty_stats
| shape_full n total avg hi lo clients by_source :
    stats_shape (full_stats n total avg hi lo clients by_source)
| shape_error e : stats_shape (error_stats e).


Definition fifty_record : PaymentRecord := with_amount (Finite false 5000 (-2)) demo_record.

(** A ledger holding exactly one record, of 50.00. *)
Definition fifty_ledger : World :=
  start_process (written (concat empty_frame (new_row fifty_record))) 0.

(** ** State updates of the processor and the tracker *)

Definition with_ticks (n : nat) (w : World) : World :=
  {| processed_emails := processed_emails w; excel := excel w;
     ticks := n; log := log w |}.

Definition mark_processed (email_id : string) (w : World) : World :=
  {| processed_emails := {[email_id]} ∪ processed_emails w; excel := excel w;
     ticks := ticks w; log := log w |}.

(** The candidate built from a classified message. *)
Definition candidate (src : PaymentSource) (pattern : PaymentPattern)
           (body subject : string) (d : Decimal) (payment_date processed : DateTime)
  : PaymentRecord :=
  {| date := payment_date; amount := d; source := src;
     client_name := extract_client_name (body ++ " " ++ subject) (name_pattern pattern);
     email_subject := subject; processed_at := processed |}.

(** ** Sample mailboxes *)

(** The spec's scenario message, with a given Date header. *)
Definition zelle_message (date_header : string) : EmailMessage :=
  {| msg_from := HStr "Zelle <alert@zellepay.com>";
     msg_date := HStr date_header;
     decode_subject := Val "You received a payment";
     extract_body := Val "John Smith sent you $75.00" |}.

(** The same sender with raw non-ASCII bytes in the From header. *)
Definition raw_from_message : EmailMessage :=
  {| msg_from := HHeader;
     msg_date := HStr "Mon, 15 Jan 2024 10:30:00 +0000";
     decode_subject := Val "You received a payment";
     extract_body := Val "John Smith sent you $75.00" |}.

(** A payment notice without an amount in it. *)
Definition no_amount_message : EmailMessage :=
  {| msg_from := HStr "Zelle <alert@zellepay.com>";
     msg_date := HStr "Mon, 15 Jan 2024 10:30:00 +0000";
     decode_subject := Val "You received a payment";
     extract_body := Val "John Smith sent you money" |}.

Fixpoint find_message (email_id : string) (inbox : list (string * EmailMessage))
  : option EmailMessage :=
  match inbox with
  | [] => None
  | (i, m) :: rest => if String.eqb i email_id then Some m else find_message email_id rest
  end.

(** A mailbox that lists the given messages, by identifier, under the sender
    alert@zellepay.com and nothing under the others; a clock that advances
    one day per reading; a date parser that knows one header; a disk that
    takes every write, or fails every write and leaves a truncated file that
    cannot be read. *)
Definition mailbox (inbox : list (string * EmailMessage)) (disk_ok : bool) : Env :=
  {| clock := fun n => {| year := 2024; month := 1; day := 15 + n;
                          hour := 10; minute := 30; second := 0 |};
     parsedate_to_datetime := fun h =>
       if String.eqb h "Mon, 15 Jan 2024 10:30:00 +0000" then Some demo_date else None;
     parsedate_overflow := fun _ => false;
     search_emails := fun sender =>
       if String.eqb sender "alert@zellepay.com" then Val (fst <$> inbox) else Val [];
     fetch_email := fun email_id => Val (find_message email_id inbox);
     write_ok := fun _ => disk_ok;
     partial_write := fun _ _ => {| sheet := {| columns := []; rows := [] |};
                                    readable := false |} |}.

(** A Date header the parser of [mailbox] knows. *)
Definition good_header : string := "Mon, 15 Jan 2024 10:30:00 +0000".

(** What the sender's handler does with an exception. *)
Definition sender_failed (sender : string) (e : exn) (w : World) : World :=
  match e with
  | EmailConnectionError => with_log (error_connection sender e) w
  | _ => with_log (error_unexpected sender e) w
  end.

(** ** Notions for the further properties *)

(** A message identifier that a search for one of the supported senders
    returns. *)
Definition listed (env : Env) (self : PaymentProcessor) (email_id : string) : Prop :=
  exists sender email_ids,
    sender ∈ get_supported_senders self /\
    search_emails env sender = Val email_ids /\
    email_id ∈ email_ids.

(** Whether handling a message incremented the count. *)
Definition counted (r : res bool) : nat :=
  match r with
  | Val true => 1
  | _ => 0
  end.

(** An unreachable mail server: every search raises the connection error. *)
Definition offline_env : Env :=
  {| clock := fun _ => demo_date;
     parsedate_to_datetime := fun _ => None;
     parsedate_overflow := fun _ => false;
     search_emails := fun _ => Exc EmailConnectionError;
     fetch_email := fun _ => Val None;
     write_ok := fun _ => true; partial_write := fun file _ => file |}.



(** A cell that arithmetic on the Amount column accepts: a number or blank. *)
Definition amount_cell (c : Cell) : Prop :=
  match c with
  | CNum _ | CNaN => True
  | CStr _ | CDec _ => False
  end.

(** A ledger the statistics can be computed on: the three columns they read
    are present and the Amount column holds numbers or blanks only. *)
Definition summable (df : DataFrame) : Prop :=
  "Amount" ∈ columns df /\ "Client Name" ∈ columns df /\ "Source" ∈ columns df /\
  Forall (fun r => amount_cell (cell r "Amount")) (rows df).


(** * Properties *)

(** ** Text *)

Lemma append_cons (a : ascii) (s t : string) : String a s ++ t = String a (s ++ t).
Proof. reflexivity. Qed.


Lemma starts_with_spec (p s : string) :
  starts_with p s = true <-> exists post, s = p ++ post.
Proof.
  revert s. induction p as [|a p IH]; intros s; simpl.
  - split; [intros _; now exists s | trivial].
  - destruct s as [|b s].
    + split; [discriminate | intros [post H]; discriminate].
    + destruct (Ascii.eqb_spec a b) as [->|Hne].
      * rewrite IH. split; intros [post H]; exists post.
        -- rewrite append_cons. now rewrite H.
        -- rewrite append_cons in H. now inversion H.
      * split; [discriminate | intros [post H]; rewrite append_cons in H; congruence].
Qed.

Lemma contains_spec (sub s : string) :
  contains sub s = true <-> substring_of sub s.
Proof.
  unfold substring_of. induction s as [|b s IH]; simpl.
  - rewrite orb_false_r, starts_with_spec. split.
    + intros [post H]. now exists EmptyString, post.
    + intros [pre [post H]]. destruct pre; [now exists post | discriminate].
  - rewrite orb_true_iff, starts_with_spec, IH. split.
    + intros [[post H] | [pre [post H]]].
      * now exists EmptyString, post.
      * exists (String b pre), post. rewrite append_cons. now rewrite H.
    + intros [pre [post H]]. destruct pre as [|a pre].
      * left. now exists post.
      * right. rewrite append_cons in H. inversion H. now exists pre, post.
Qed.

(** ** The regex engine is sound for [reach] *)

Lemma run_sound {R : Type} (ic : bool) (r : regex) :
  forall (s : string) (c : captures) (k : string -> captures -> option R) (x : R),
    run ic r s c k = Some x ->
    exists s' c', reach ic r s c s' c' /\ k s' c' = Some x.
Proof.
  induction r as [|cs|r1 IH1 r2 IH2|r1 IH1 r2 IH2|r IH|i r IH]; intros s c k x H; simpl in H.
  - exists s, c. split; [constructor | assumption].
  - destruct s as [|a s]; [discriminate|].
    destruct (class_matches ic cs a) eqn:Hm; [|discriminate].
    exists s, c. split; [now constructor | assumption].
  - apply IH1 in H as (s1 & c1 & Hr1 & H).
    apply IH2 in H as (s2 & c2 & Hr2 & H).
    exists s2, c2. split; [econstructor; eassumption | assumption].
  - destruct (run ic r1 s c k) eqn:H1.
    + apply IH1 in H1 as (s' & c' & Hr & Hk). inversion H; subst.
      exists s', c'. split; [now apply reach_alt_l | assumption].
    + apply IH2 in H as (s' & c' & Hr & Hk).
      exists s', c'. split; [now apply reach_alt_r | assumption].
  - revert H. generalize (String.length s) at 1. intros fuel. revert s c.
    induction fuel as [|fuel IHf]; intros s c H.
    + exists s, c. split; [constructor | assumption].
    + match type of H with
      | match ?t with _ => _ end = _ => destruct t eqn:Hbody
      end.
      * inversion H; subst. apply IH in Hbody as (s1 & c1 & Hr & Hk).
        destruct (String.length s1 <? String.length s)%nat.
        -- apply IHf in Hk as (s2 & c2 & Hstar & Hk).
           exists s2, c2. split; [econstructor; eassumption | assumption].
        -- exists s1, c1. split; [|assumption].
           eapply reach_star_step; [eassumption | constructor].
      * exists s, c. split; [constructor | assumption].
  - apply IH in H as (s' & c' & Hr & Hk).
    exists s', (<[i := consumed s s']> c'). split; [now constructor | assumption].
Qed.

(** ** Classification *)

Lemma any_contained_spec (xs : gset string) (text : string) :
  any_contained xs text = true <-> exists x, x ∈ xs /\ substring_of x text.
Proof.
  unfold any_contained. rewrite existsb_exists. split.
  - intros (x & Hin & Hc). exists x. split.
    + apply elem_of_elements, list_elem_of_In, Hin.
    + now apply contains_spec.
  - intros (x & Hin & Hc). exists x. split.
    + apply list_elem_of_In, elem_of_elements, Hin.
    + now apply contains_spec.
Qed.

Lemma accepts_spec (p : PaymentPattern) (from_email subject : string) :
  matches_sender p from_email && matches_subject p subject = true <->
  accepts p from_email subject.
Proof.
  unfold accepts, sender_accepted, subject_accepted, matches_sender, matches_subject.
  now rewrite andb_true_iff, !any_contained_spec.
Qed.

Lemma first_matching_some (tbl : list (PaymentSource * PaymentPattern))
      (from_email subject : string) (src : PaymentSource) :
  first_matching tbl from_email subject = Some src <->
  exists (i : nat) (p : PaymentPattern),
    tbl !! i = Some (src, p) /\ accepts p from_email subject /\
    forall j src' p', (j < i)%nat -> tbl !! j = Some (src', p') ->
                      ~ accepts p' from_email subject.
Proof.
  induction tbl as [|[s0 p0] tbl IH]; simpl.
  - split; [discriminate | intros (i & p & H & _); now rewrite lookup_nil in H].
  - destruct (matches_sender p0 from_email && matches_subject p0 subject) eqn:Hm.
    + apply accepts_spec in Hm. split.
      * intros [= <-]. exists 0%nat, p0.
        split; [reflexivity | split; [assumption | intros; lia]].
      * intros (i & p & Hi & Hacc & Hfirst). destruct i as [|i].
        -- simpl in Hi. congruence.
        -- exfalso. apply (Hfirst 0%nat s0 p0); [lia | reflexivity | assumption].
    + assert (Hno : ~ accepts p0 from_email subject).
      { rewrite <- accepts_spec, Hm. discriminate. }
      rewrite IH. split.
      * intros (i & p & Hi & Hacc & Hfirst). exists (S i), p.
        split; [assumption | split; [assumption|]].
        intros [|j] src' p' Hlt Hj; simpl in Hj.
        -- congruence.
        -- apply (Hfirst j src' p'); [lia | assumption].
      * intros (i & p & Hi & Hacc & Hfirst). destruct i as [|i]; simpl in Hi.
        -- congruence.
        -- exists i, p. split; [assumption | split; [assumption|]].
           intros j src' p' Hlt Hj. apply (Hfirst (S j) src' p'); [lia | assumption].
Qed.

Lemma first_matching_none (tbl : list (PaymentSource * PaymentPattern))
      (from_email subject : string) :
  first_matching tbl from_email subject = None <->
  forall src p, (src, p) ∈ tbl -> ~ accepts p from_email subject.
Proof.
  induction tbl as [|[s0 p0] tbl IH]; simpl.
  - split; [intros _ src p H; inversion H | reflexivity].
  - destruct (matches_sender p0 from_email && matches_subject p0 subject) eqn:Hm.
    + apply accepts_spec in Hm. split; [discriminate|].
      intros H. exfalso. apply (H s0 p0); [apply list_elem_of_here | assumption].
    + rewrite IH. split.
      * intros H src p Hin. apply elem_of_cons in Hin as [[= -> ->]|Hin].
        -- rewrite <- accepts_spec, Hm. discriminate.
        -- now apply (H src p).
      * intros H src p Hin. apply (H src p). now apply list_elem_of_further.
Qed.

(** C2. Classification returns a provider exactly when some provider of the
    table accepts the message (a sender address occurs in the lower-cased
    sender and a keyword in the lower-cased subject); it returns the first
    accepting provider in table order; with no accepting provider it returns
    none. The table is the four-provider table of the processor. *)
Theorem identify_payment_source_spec (from_email subject : string) :
  let tbl := patterns new_processor in
  let result := identify_payment_source new_processor from_email subject in
  tbl = [(ZELLE, zelle_pattern); (VENMO, venmo_pattern);
         (CASHAPP, cashapp_pattern); (PAYPAL, paypal_pattern)] /\
  ((exists src, result = Some src) <->
   (exists src p, (src, p) ∈ tbl /\ accepts p from_email subject)) /\
  (result = None <->
   (forall src p, (src, p) ∈ tbl -> ~ accepts p from_email subject)) /\
  (forall src, result = Some src <->
     exists (i : nat) (p : PaymentPattern),
       tbl !! i = Some (src, p) /\ accepts p from_email subject /\
       forall j src' p', (j < i)%nat -> tbl !! j = Some (src', p') ->
                         ~ accepts p' from_email subject).
Proof.
  intros tbl result. split; [reflexivity|].
  assert (Hnone : result = None <->
            forall src p, (src, p) ∈ tbl -> ~ accepts p from_email subject)
    by apply first_matching_none.
  assert (Hsome := fun src => first_matching_some tbl from_email subject src).
  split; [split | split; [exact Hnone | exact Hsome]].
  - intros [src Hsrc]. apply Hsome in Hsrc as (i & p & Hi & Hacc & _).
    exists src, p. split; [|assumption]. eapply list_elem_of_lookup_2, Hi.
  - intros (src & p & Hin & Hacc). destruct result as [src'|] eqn:Hres.
    + now exists src'.
    + exfalso. destruct Hnone as [Hnone _]. now apply (Hnone eq_refl src p).
Qed.

(** ** Payer-name extraction *)

Lemma first_nonblank_none (gs : list (option string)) :
  first_nonblank gs = None <-> Forall blank gs.
Proof.
  induction gs as [|[g|] gs IH]; simpl.
  - split; [constructor | reflexivity].
  - destruct (strip g) eqn:Hg.
    + rewrite IH. split; [intros H; constructor; assumption | intros H; now inversion H].
    + split; [discriminate | intros H; inversion H as [|? ? Hb]; simpl in Hb; congruence].
  - rewrite IH. split; [intros H; constructor; [exact I | assumption] | intros H; now inversion H].
Qed.

Lemma first_nonblank_some (gs : list (option string)) (name : string) :
  first_nonblank gs = Some name <->
  exists gs1 g gs2, gs = (gs1 ++ Some g :: gs2)%list /\ Forall blank gs1 /\
                    strip g = name /\ name <> EmptyString.
Proof.
  induction gs as [|[g|] gs IH]; simpl.
  - split; [discriminate | intros (gs1 & g & gs2 & H & _); now destruct gs1].
  - destruct (strip g) eqn:Hg.
    + rewrite IH. split.
      * intros (gs1 & g' & gs2 & -> & Hb & Hs & Hn).
        exists (Some g :: gs1), g', gs2. split; [reflexivity | split; [|now split]].
        constructor; assumption.
      * intros (gs1 & g' & gs2 & Heq & Hb & Hs & Hn). destruct gs1 as [|g1 gs1].
        -- simpl in Heq. inversion Heq; subst. congruence.
        -- simpl in Heq. inversion Heq; subst. inversion Hb; subst.
           now exists gs1, g', gs2.
    + split.
      * intros [= <-]. exists [], g, gs. split; [reflexivity | split; [constructor | now split]].
      * intros (gs1 & g' & gs2 & Heq & Hb & Hs & Hn). destruct gs1 as [|g1 gs1].
        -- simpl in Heq. inversion Heq; subst. congruence.
        -- simpl in Heq. inversion Heq; subst. inversion Hb as [|? ? Hb1]; subst.
           simpl in Hb1. congruence.
  - rewrite IH. split.
    + intros (gs1 & g' & gs2 & -> & Hb & Hs & Hn).
      exists (None :: gs1), g', gs2. split; [reflexivity | split; [|now split]].
      constructor; [exact I | assumption].
    + intros (gs1 & g' & gs2 & Heq & Hb & Hs & Hn). destruct gs1 as [|g1 gs1].
      * simpl in Heq. discriminate.
      * simpl in Heq. inversion Heq; subst. inversion Hb; subst.
        now exists gs1, g', gs2.
Qed.

Lemma rstrip_idempotent (s : string) : rstrip (rstrip s) = rstrip s.
Proof.
  induction s as [|a s IH]; [reflexivity|]. simpl.
  destruct (rstrip s) as [|b t] eqn:Hr.
  - destruct (is_space a) eqn:Ha; simpl; [reflexivity | now rewrite Ha].
  - change (rstrip (String a (String b t))) with
      (match rstrip (String b t) with
       | EmptyString => if is_space a then EmptyString else String a EmptyString
       | u => String a u
       end).
    now rewrite IH.
Qed.

Lemma lstrip_head (s : string) :
  match lstrip s with
  | EmptyString => True
  | String a _ => is_space a = false
  end.
Proof.
  induction s as [|a s IH]; simpl; [exact I|].
  destruct (is_space a) eqn:Ha; [assumption | assumption].
Qed.

Lemma rstrip_head (a : ascii) (s : string) :
  is_space a = false -> exists t, rstrip (String a s) = String a t.
Proof.
  intros Ha. simpl. destruct (rstrip s); [rewrite Ha|]; eauto.
Qed.

Lemma strip_idempotent (s : string) : strip (strip s) = strip s.
Proof.
  unfold strip. assert (H := lstrip_head s). destruct (lstrip s) as [|a t]; [reflexivity|].
  destruct (rstrip_head a t H) as [u Hu]. rewrite Hu.
  change (lstrip (String a u)) with (if is_space a then lstrip u else String a u).
  rewrite H, <- Hu. apply rstrip_idempotent.
Qed.

(** C5. Payer-name extraction searches the pattern case-insensitively and
    returns, trimmed, the first capture group in group order that is not
    blank; with no match, or with every group missing, empty or whitespace,
    it returns the text Unknown. It is a total function: no input makes it
    raise. The result carries no surrounding whitespace. *)
Theorem extract_client_name_spec (text : string) (pattern : regex) :
  let result := extract_client_name text pattern in
  (search pattern text true = None -> result = "Unknown") /\
  (forall m, search pattern text true = Some m ->
             Forall blank (groups m) -> result = "Unknown") /\
  (forall m gs1 g gs2,
      search pattern text true = Some m ->
      groups m = (gs1 ++ Some g :: gs2)%list -> Forall blank gs1 ->
      strip g <> EmptyString ->
      result = strip g) /\
  strip result = result.
Proof.
  unfold extract_client_name. cbv zeta. repeat split.
  - now intros ->.
  - intros m -> Hb. apply first_nonblank_none in Hb. now rewrite Hb.
  - intros m gs1 g gs2 -> Hg Hb Hn.
    assert (H : first_nonblank (groups m) = Some (strip g)).
    { apply first_nonblank_some. now exists gs1, g, gs2. }
    now rewrite H.
  - destruct (search pattern text true) as [m|]; [|reflexivity].
    destruct (first_nonblank (groups m)) as [name|] eqn:Hf; [|reflexivity].
    apply first_nonblank_some in Hf as (gs1 & g & gs2 & _ & _ & <- & _).
    apply strip_idempotent.
Qed.

(** ** What a run consumes *)

Lemma all_chars_app p (u v : string) :
  all_chars p (u ++ v) = all_chars p u && all_chars p v.
Proof.
  induction u as [|a u IH]; [reflexivity|].
  rewrite append_cons. simpl. now rewrite IH, andb_assoc.
Qed.

Lemma all_chars_weaken (p q : ascii -> bool) (u : string) :
  (forall a, p a = true -> q a = true) -> all_chars p u = true -> all_chars q u = true.
Proof.
  intros Hpq. induction u as [|a u IH]; simpl; [trivial|].
  rewrite !andb_true_iff. intros [Ha Hu]. split; auto.
Qed.

Lemma append_assoc (u v w : string) : (u ++ v) ++ w = u ++ (v ++ w).
Proof. induction u as [|a u IH]; [reflexivity|]. rewrite !append_cons. now rewrite IH. Qed.

Lemma reach_consumes ic r s c s' c' :
  reach ic r s c s' c' ->
  exists w, s = w ++ s' /\ all_chars (alphabet ic r) w = true.
Proof.
  induction 1 as [s c|cs a s c Hm|r1 r2 s c s1 c1 s2 c2 _ IH1 _ IH2
                  |r1 r2 s c s' c' _ IH|r1 r2 s c s' c' _ IH
                  |r s c|r s c s1 c1 s2 c2 _ IH1 _ IH2|i r s c s' c' _ IH].
  - now exists EmptyString.
  - exists (String a EmptyString). split; [reflexivity|]. simpl. now rewrite Hm.
  - destruct IH1 as (w1 & -> & H1), IH2 as (w2 & -> & H2).
    exists (w1 ++ w2). split; [now rewrite append_assoc|].
    rewrite all_chars_app. apply andb_true_iff. split.
    + eapply all_chars_weaken; [|exact H1]. intros a Ha. simpl. now rewrite Ha.
    + eapply all_chars_weaken; [|exact H2]. intros a Ha. simpl. rewrite Ha. apply orb_true_r.
  - destruct IH as (w & -> & H). exists w. split; [reflexivity|].
    eapply all_chars_weaken; [|exact H]. intros a Ha. simpl. now rewrite Ha.
  - destruct IH as (w & -> & H). exists w. split; [reflexivity|].
    eapply all_chars_weaken; [|exact H]. intros a Ha. simpl. rewrite Ha. apply orb_true_r.
  - now exists EmptyString.
  - destruct IH1 as (w1 & -> & H1), IH2 as (w2 & -> & H2).
    exists (w1 ++ w2). split; [now rewrite append_assoc|].
    rewrite all_chars_app. apply andb_true_iff. split; assumption.
  - destruct IH as (w & -> & H). exists w. split; [reflexivity | assumption].
Qed.

Lemma length_append (u v : string) : String.length (u ++ v) = (String.length u + String.length v)%nat.
Proof. induction u as [|a u IH]; [reflexivity|]. rewrite append_cons. simpl. now rewrite IH. Qed.

Lemma take_append (u v : string) : take (String.length u) (u ++ v) = u.
Proof. induction u as [|a u IH]; [now destruct v|]. rewrite append_cons. simpl. now rewrite IH. Qed.

Lemma consumed_append (u v : string) : consumed (u ++ v) v = u.
Proof.
  unfold consumed. rewrite length_append.
  replace (String.length u + String.length v - String.length v)%nat with (String.length u) by lia.
  apply take_append.
Qed.

Lemma amount_alphabet a :
  alphabet false (Seq (Plus (Chr [CRange "0" "9"; CChar ","])) (Seq (Opt (Lit ".")) (Star Patterns.digit))) a = true -> amount_char a = true.
Proof.
  unfold amount_char, is_digit, Plus, Opt, Lit, Patterns.digit.
  cbn [alphabet class_matches existsb item_matches].
  change (code "0") with 48%N. change (code "9") with 57%N.
  destruct (in_range 48 57 a); simpl; [trivial|].
  destruct (Ascii.eqb a ","); simpl; [trivial|].
  destruct (Ascii.eqb a "."); simpl; [trivial|]. trivial.
Qed.

Lemma search_at_some ic r s m :
  search_at ic r s = Some m ->
  m_ngroups m = ngroups r /\
  exists s0 s' , reach ic r s0 ∅ s' (m_caps m).
Proof.
  induction s as [|a s IH]; simpl.
  - destruct (run ic r EmptyString ∅ (fun _ c => Some c)) as [c|] eqn:Hrun; [|discriminate].
    intros [= <-]. split; [reflexivity|].
    apply run_sound in Hrun as (s' & c' & Hr & [= <-]). eauto.
  - destruct (run ic r (String a s) ∅ (fun _ c => Some c)) as [c|] eqn:Hrun; [|exact IH].
    intros [= <-]. split; [reflexivity|].
    apply run_sound in Hrun as (s' & c' & Hr & [= <-]). eauto.
Qed.

Lemma amount_group text m :
  search Patterns.amount text false = Some m ->
  exists g, group m 1 = GroupIs (Some g) /\ all_chars amount_char g = true.
Proof.
  intros H. apply search_at_some in H as (Hn & s0 & s' & Hr).
  unfold group. rewrite Hn. simpl.
  unfold Patterns.amount in Hr. inversion Hr as [| |r1 r2 s c s1 c1 s2 c2 H1 H2| | | | |]; subst.
  inversion H2 as [| | | | | | |i r s c s2' c' Hb]; subst.
  apply reach_consumes in Hb as (w & -> & Hw).
  rewrite consumed_append, lookup_insert_eq. exists w. split; [reflexivity|].
  eapply all_chars_weaken; [|exact Hw]. apply amount_alphabet.
Qed.

(** ** Amounts are plain decimals *)

Ltac ascii_cases a := destruct a as [[] [] [] [] [] [] [] []].

Lemma number_char_facts a :
  number_char a = true ->
  is_space a = false /\ Ascii.eqb a "_" = false /\ Ascii.eqb a "+" = false /\
  Ascii.eqb a "-" = false /\ lower_char a = a /\ Ascii.eqb a "i" = false /\
  Ascii.eqb "n" a = false /\ Ascii.eqb "s" a = false.
Proof. ascii_cases a; vm_compute; intros H; try discriminate H; repeat split. Qed.

Lemma strip_number t : all_chars number_char t = true -> strip t = t.
Proof.
  intros H. unfold strip.
  assert (Hl : lstrip t = t).
  { destruct t as [|a t]; [reflexivity|]. simpl in *. apply andb_true_iff in H as [Ha _].
    apply number_char_facts in Ha as (-> & _). reflexivity. }
  rewrite Hl. induction t as [|a t IH]; [reflexivity|].
  simpl in H. apply andb_true_iff in H as [Ha Ht]. simpl.
  rewrite IH.
  - destruct t; [|reflexivity]. apply number_char_facts in Ha as (-> & _). reflexivity.
  - assumption.
  - destruct t as [|b t]; [reflexivity|]. simpl in *. apply andb_true_iff in Ht as [Hb _].
    apply number_char_facts in Hb as (-> & _). reflexivity.
Qed.

Lemma remove_underscore_number t : all_chars number_char t = true -> remove_char "_" t = t.
Proof.
  induction t as [|a t IH]; [reflexivity|]. simpl. intros H.
  apply andb_true_iff in H as [Ha Ht]. apply number_char_facts in Ha as (_ & -> & _).
  now rewrite IH.
Qed.

Lemma parse_number_shape sign s :
  parse_number sign s = None \/ exists c e, parse_number sign s = Some (Finite sign c e).
Proof.
  unfold parse_number. destruct (span_digits s) as [int r].
  destruct (match r with String a r1 => if Ascii.eqb a "." then span_digits r1 else (EmptyString, r) | EmptyString => (EmptyString, r) end) as [frac r'].
  destruct (int +:+ frac); [now left|].
  destruct (parse_exponent r'); [right; eauto | now left].
Qed.

Lemma parse_special_number t : all_chars number_char t = true -> parse_special false t = None.
Proof.
  destruct t as [|a t]; [reflexivity|]. simpl. intros H.
  apply andb_true_iff in H as [Ha _].
  apply number_char_facts in Ha as (_ & _ & _ & _ & Hl & Hi & Hn & Hs).
  unfold parse_special. cbn [lower String.eqb starts_with].
  rewrite Hl, Hi, Hn, Hs. reflexivity.
Qed.

Lemma of_string_number t :
  all_chars number_char t = true ->
  of_string t = None \/ exists c e, of_string t = Some (Finite false c e).
Proof.
  intros H. unfold of_string. rewrite (strip_number t H), (remove_underscore_number t H).
  assert (Hs : split_sign t = (false, t)).
  { destruct t as [|a t]; [reflexivity|]. simpl in *. apply andb_true_iff in H as [Ha _].
    apply number_char_facts in Ha as (_ & _ & -> & -> & _). reflexivity. }
  rewrite Hs. destruct (parse_number_shape false t) as [Hn | (c & e & Hn)]; rewrite Hn.
  - left. now apply parse_special_number.
  - right. eauto.
Qed.

Lemma remove_comma_number g :
  all_chars amount_char g = true -> all_chars number_char (remove_char "," g) = true.
Proof.
  induction g as [|a g IH]; [reflexivity|]. simpl. intros H.
  apply andb_true_iff in H as [Ha Hg]. destruct (Ascii.eqb a ",") eqn:Hc; [now apply IH|].
  simpl. rewrite (IH Hg), andb_true_r. unfold amount_char in Ha. unfold number_char.
  now rewrite Hc, orb_false_r in Ha.
Qed.














(** ** Binary64 conversions of amounts *)

Lemma shr_1_nonneg mrs : (0 <= shr_m mrs)%Z -> (0 <= shr_m (shr_1 mrs))%Z.
Proof.
  destruct mrs as [m r s]. simpl. intros H. destruct m as [|p|p]; [simpl; lia | destruct p; simpl; lia | lia].
Qed.

Lemma iter_shr_1_nonneg p : forall mrs,
  (0 <= shr_m mrs)%Z -> (0 <= shr_m (SpecFloat.iter_pos shr_1 p mrs))%Z.
Proof.
  induction p as [p IH|p IH|]; intros mrs H; simpl.
  - apply IH, IH, shr_1_nonneg, H.
  - apply IH, IH, H.
  - apply shr_1_nonneg, H.
Qed.

Lemma shr_fexp_nonneg m e l :
  (0 <= m)%Z -> (0 <= shr_m (fst (shr_fexp prec emax m e l)))%Z.
Proof.
  intros H. unfold shr_fexp, shr.
  assert (H0 : (0 <= shr_m (shr_record_of_loc m l))%Z) by (destruct l as [|[]]; exact H).
  destruct (fexp prec emax (Zdigits2 m + e) - e)%Z; simpl; [exact H0 | | exact H0].
  now apply iter_shr_1_nonneg.
Qed.

Lemma round_nearest_even_nonneg m l : (0 <= m)%Z -> (0 <= round_nearest_even m l)%Z.
Proof. intros H. destruct l as [|[]]; simpl; try lia. destruct (Z.even m); lia. Qed.

Lemma binary_round_aux_number sx mx ex lx :
  (0 <= mx)%Z -> is_number (binary_round_aux prec emax sx mx ex lx) = true.
Proof.
  intros H. unfold binary_round_aux.
  assert (H1 := shr_fexp_nonneg mx ex lx H).
  destruct (shr_fexp prec emax mx ex lx) as [mrs' e']. simpl in H1.
  assert (H2 := shr_fexp_nonneg (round_nearest_even (shr_m mrs') (loc_of_shr_record mrs')) e' loc_Exact
                  (round_nearest_even_nonneg _ _ H1)).
  destruct (shr_fexp prec emax _ e' loc_Exact) as [mrs'' e'']. simpl in H2.
  destruct (shr_m mrs'') as [|p|p]; [reflexivity | | lia].
  now destruct (e'' <=? emax - prec)%Z.
Qed.

Lemma binary_normalize_number m e s : is_number (binary_normalize prec emax m e s) = true.
Proof.
  destruct m as [|p|p]; simpl; [reflexivity | |];
    unfold binary_round; destruct (shl_align _ _ _); apply binary_round_aux_number; lia.
Qed.

Lemma float_div_number s m s' m' :
  is_number (SFdiv prec emax (S754_finite s m 0) (S754_finite s' m' 0)) = true.
Proof.
  unfold SFdiv. destruct (SFdiv_core_binary prec emax (Z.pos m) 0 (Z.pos m') 0) as [[mz ez] lz] eqn:Hd.
  apply binary_round_aux_number.
  unfold SFdiv_core_binary in Hd.
  set (m2 := match (0 - 0 - Z.min (fexp prec emax (Zdigits2 (Z.pos m) + 0 - (Zdigits2 (Z.pos m') + 0))) (0 - 0))%Z with
       | Z.pos _ => Z.shiftl (Z.pos m) (0 - 0 - Z.min (fexp prec emax (Zdigits2 (Z.pos m) + 0 - (Zdigits2 (Z.pos m') + 0))) (0 - 0))
       | 0%Z => Z.pos m | Z.neg _ => 0%Z end) in *.
  assert (Hm2 : (0 <= m2)%Z).
  { subst m2. destruct (0 - 0 - Z.min _ _)%Z eqn:E; try lia. apply Z.shiftl_nonneg. lia. }
  assert (Hq := Z.div_eucl_eq m2 (Z.pos m') ltac:(lia)).
  assert (Hr := Z.mod_pos_bound m2 (Z.pos m') ltac:(lia)).
  unfold Z.modulo in Hr.
  destruct (Z.div_eucl m2 (Z.pos m')) as [q r]. inversion Hd; subst. nia.
Qed.

Lemma to_float_finite s c e :
  exists f, to_float (Finite s c e) = Some f /\ is_number f = true.
Proof.
  unfold to_float. eexists. split; [reflexivity|].
  destruct c as [|m]; [reflexivity|].
  destruct e as [|k|k]; try apply binary_normalize_number. apply float_div_number.
Qed.

Lemma float_eqb_refl f : is_number f = true -> float_eqb f f = true.
Proof.
  unfold float_eqb, SFeqb. destruct f as [s|s| |s m e]; simpl; try discriminate; intros _.
  - reflexivity.
  - now destruct s.
  - rewrite Z.compare_refl, Pos.compare_cont_refl. now destruct s.
Qed.


(** ** The record store *)

Ltac munfold :=
  unfold mbind, M_bind, mret, M_ret, lift, raise, logger, get_file, put_file,
    get_processed, add_processed, now, try_except in *.

Lemma mask_rowwise {A} (f1 f2 f3 f4 : A -> bool) (l : list A) :
  any (mask_and (mask_and (mask_and (f1 <$> l) (f2 <$> l)) (f3 <$> l)) (f4 <$> l))
  = existsb (fun r => f1 r && f2 r && f3 r && f4 r) l.
Proof.
  unfold any, mask_and. induction l as [|r l IH]; [reflexivity|].
  cbn. now rewrite IH.
Qed.

Lemma column_present df col :
  col ∈ columns df -> column df col = Val ((fun r => cell r col) <$> rows df).
Proof. intros H. unfold column. now rewrite decide_True. Qed.

Lemma column_absent df col : col ∉ columns df -> column df col = Exc KeyError.
Proof. intros H. unfold column. now rewrite decide_False. Qed.

Lemma load_readable w :
  readable (excel w) = true -> _load_dataframe w = (Val (sheet (excel w)), w).
Proof. intros H. unfold _load_dataframe. munfold. now rewrite H. Qed.

Lemma load_unreadable w :
  readable (excel w) = false -> _load_dataframe w = (Val empty_frame, with_log warn_load_failed w).
Proof. intros H. unfold _load_dataframe. munfold. now rewrite H. Qed.

Lemma empty_frame_has_key_columns : has_key_columns empty_frame.
Proof. repeat constructor; vm_compute; set_solver. Qed.

Lemma same_but_log_refl w : same_but_log w w.
Proof. now repeat split. Qed.

Lemma same_but_log_with_log e w w' : same_but_log w w' -> same_but_log w (with_log e w').
Proof. intros (? & ? & ?). now repeat split. Qed.

Section StorageFacts.
Variable env : Env.

Lemma record_exists_total record w :
  exists b w', record_exists record w = (Val b, w') /\ same_but_log w w'.
Proof.
  unfold record_exists, _load_dataframe, column, float_of. munfold.
  destruct (readable (excel w)); cbn;
    repeat (case_decide; cbn);
    destruct (to_float (amount record)); cbn;
    repeat (case_decide; cbn);
    (do 2 eexists; split; [reflexivity | now repeat split]).
Qed.

Lemma record_exists_healthy record f w :
  readable (excel w) = true ->
  has_key_columns (sheet (excel w)) ->
  to_float (amount record) = Some f ->
  record_exists record w
  = (Val (existsb (row_matches record f) (rows (sheet (excel w)))), w).
Proof.
  intros Hr Hk Hf. unfold has_key_columns, key_columns in Hk.
  rewrite !Forall_cons in Hk. destruct Hk as (Hd & Ha & Hs & Hn & _).
  unfold record_exists. unfold try_except at 1.
  unfold mbind at 1, M_bind at 1. rewrite (load_readable w Hr).
  unfold float_of. rewrite Hf, !column_present by assumption.
  munfold. cbn. do 2 f_equal.
  rewrite <- !list_fmap_compose, mask_rowwise. reflexivity.
Qed.

Lemma load_spec w : _load_dataframe w = (Val (loaded w), after_load w).
Proof.
  unfold loaded, after_load. destruct (readable (excel w)) eqn:Hr.
  - now apply load_readable.
  - now apply load_unreadable.
Qed.

Lemma append_record_spec record w :
  append_record env record w =
  if write_ok env (concat (loaded w) (new_row record))
  then (Val tt, with_log (info_record_saved record)
                  (with_file (written (concat (loaded w) (new_row record))) (after_load w)))
  else (Exc OSError,
        with_file (partial_write env (excel w) (concat (loaded w) (new_row record)))
          (after_load w)).
Proof.
  unfold append_record. unfold mbind at 1, M_bind at 1. rewrite load_spec.
  unfold _save_dataframe. fold (new_row record).
  destruct (write_ok env (concat (loaded w) (new_row record))); [reflexivity|].
  unfold after_load. destruct (readable (excel w)); reflexivity.
Qed.

Lemma save_record_unfold record w b w0 :
  record_exists record w = (Val b, w0) ->
  save_record env record w =
  if b then (Val tt, with_log (info_record_exists record) w0)
  else match append_record env record w0 with
       | (Val x, w') => (Val x, w')
       | (Exc _, w') => (Exc StorageError, w')
       end.
Proof.
  intros H. unfold save_record, try_except. unfold mbind at 1, M_bind at 1. rewrite H.
  destruct b; [reflexivity|].
  destruct (append_record env record w0) as [[x|e] w']; reflexivity.
Qed.

(** [save_record] raises nothing but [StorageError]. *)
Lemma save_record_outcome record w :
  exists w', save_record env record w = (Val tt, w') \/
             save_record env record w = (Exc StorageError, w').
Proof.
  destruct (record_exists_total record w) as (b & w0 & H & _).
  rewrite (save_record_unfold record w b w0 H). destruct b; [eauto|].
  destruct (append_record env record w0) as [[[]|e] w']; eauto.
Qed.
End StorageFacts.


Lemma stored_row_cells record :
  cell (stored_row record) "Date" = CStr (strftime_date (date record)) /\
  cell (stored_row record) "Amount" = stored_cell (CDec (amount record)) /\
  cell (stored_row record) "Source" = CStr (value (source record)) /\
  cell (stored_row record) "Client Name" = CStr (client_name record).
Proof.
  unfold cell, stored_row, to_dict. rewrite !lookup_fmap.
  split; [|split; [|split]].
  - rewrite lookup_insert_eq. reflexivity.
  - rewrite lookup_insert_ne by done. rewrite lookup_insert_eq. reflexivity.
  - do 2 (rewrite lookup_insert_ne by done). rewrite lookup_insert_eq. reflexivity.
  - do 3 (rewrite lookup_insert_ne by done). rewrite lookup_insert_eq. reflexivity.
Qed.

Lemma row_matches_stored record f record' f' :
  to_float (amount record) = Some f ->
  row_matches record' f' (stored_row record)
  = String.eqb (strftime_date (date record)) (strftime_date (date record')) &&
    float_eqb f f' &&
    String.eqb (value (source record)) (value (source record')) &&
    String.eqb (client_name record) (client_name record').
Proof.
  intros Hf. unfold row_matches.
  destruct (stored_row_cells record) as (-> & -> & -> & ->).
  cbn [eq_str eq_float stored_cell]. rewrite Hf. reflexivity.
Qed.

Lemma row_matches_same_key r1 r2 f row :
  same_key r1 r2 -> row_matches r1 f row = row_matches r2 f row.
Proof. intros (Hd & _ & Hs & Hn). unfold row_matches. now rewrite Hd, Hs, Hn. Qed.

Lemma rows_written df record :
  rows (stored_frame (concat df (new_row record)))
  = (rows (stored_frame df) ++ [stored_row record])%list.
Proof. unfold stored_frame, concat, new_row, frame_of_dict; cbn [rows columns]. now rewrite fmap_app. Qed.

Lemma key_columns_written df record :
  has_key_columns (stored_frame (concat df (new_row record))).
Proof.
  unfold has_key_columns. apply Forall_forall. intros c Hc.
  unfold stored_frame, concat, new_row, frame_of_dict; cbn [rows columns].
  apply elem_of_app. destruct (decide (c ∈ columns df)) as [Hin|Hout]; [now left | right].
  apply list_elem_of_filter. split; [exact Hout|].
  unfold key_columns in Hc. unfold ledger_columns.
  rewrite !elem_of_cons in *. tauto.
Qed.

Lemma stored_cell_idempotent c : stored_cell (stored_cell c) = stored_cell c.
Proof. destruct c as [s|d|f|]; simpl; trivial. now destruct (to_float d). Qed.

Lemma stored_frame_idempotent df : stored_frame (stored_frame df) = stored_frame df.
Proof.
  unfold stored_frame; cbn [rows columns]. f_equal. rewrite <- list_fmap_compose.
  apply list_fmap_ext. intros i r _. simpl. rewrite <- map_fmap_compose.
  apply map_fmap_ext. intros k c _. apply stored_cell_idempotent.
Qed.

Lemma existsb_snoc {A} (p : A -> bool) (l : list A) (x : A) :
  existsb p (l ++ [x]) = existsb p l || p x.
Proof. rewrite existsb_app. simpl. now rewrite orb_false_r. Qed.

(** ** The existence check under read failures *)

Lemma record_exists_false_on_error record w :
  readable (excel w) = false \/ ~ has_key_columns (sheet (excel w)) \/
  to_float (amount record) = None ->
  exists w', record_exists record w = (Val false, w') /\ same_but_log w w'.
Proof.
  intros H.
  assert (Hk : readable (excel w) = true ->
               "Date" ∈ columns (sheet (excel w)) -> "Amount" ∈ columns (sheet (excel w)) ->
               "Source" ∈ columns (sheet (excel w)) ->
               "Client Name" ∈ columns (sheet (excel w)) ->
               to_float (amount record) = None).
  { intros Hr H1 H2 H3 H4. destruct H as [H | [H | H]]; [congruence | | exact H].
    exfalso. apply H. unfold has_key_columns, key_columns. repeat constructor; assumption. }
  unfold record_exists, _load_dataframe, column, float_of. munfold.
  destruct (readable (excel w)) eqn:Hr; cbn;
    repeat (case_decide; cbn);
    destruct (to_float (amount record)) eqn:Hf; cbn;
    repeat (case_decide; cbn);
    try (do 1 eexists; split; [reflexivity | now repeat split]).
  specialize (Hk eq_refl). discriminate Hk; assumption.
Qed.

(** C10. The existence check fails open. [record_exists] never raises: it
    always returns a boolean and changes nothing but the log. When the file
    cannot be read, a key column is missing, or the amount has no float, it
    returns false, whatever rows the sheet holds; [save_record] then runs the
    append step on the candidate, and if the write succeeds the candidate's
    row is written after the rows that were loaded (none when the file was
    unreadable), even if the sheet already held an equal record. *)
Theorem record_exists_fails_open (env : Env) (record : PaymentRecord) (w : World) :
  (exists b w', record_exists record w = (Val b, w') /\ same_but_log w w') /\
  (readable (excel w) = false \/ ~ has_key_columns (sheet (excel w)) \/
   to_float (amount record) = None ->
   exists w',
     record_exists record w = (Val false, w') /\ same_but_log w w' /\
     save_record env record w
     = match append_record env record w' with
       | (Val x, w'') => (Val x, w'')
       | (Exc _, w'') => (Exc StorageError, w'')
       end /\
     (write_ok env (concat (loaded w) (new_row record)) = true ->
      exists w'', save_record env record w = (Val tt, w'') /\
                  rows (sheet (excel w''))
                  = (rows (stored_frame (loaded w)) ++ [stored_row record])%list)).
Proof.
  split; [apply record_exists_total|]. intros H.
  destruct (record_exists_false_on_error record w H) as (w' & He & Hs).
  exists w'. split; [exact He | split; [exact Hs|]].
  assert (Hsave := save_record_unfold env record w false w' He). cbv iota in Hsave.
  split; [exact Hsave|]. intros Hw. rewrite Hsave, append_record_spec.
  destruct Hs as (_ & Hx & _).
  assert (Hl : loaded w' = loaded w) by (unfold loaded; now rewrite Hx).
  rewrite Hl, Hw. eexists. split; [reflexivity|].
  cbn [excel with_log with_file written sheet]. apply rows_written.
Qed.

Lemma record_exists_fails_open_witness :
  row_matches demo_record (S754_finite false 5277655813324800 (-46))
    (stored_row demo_record) = true /\
  exists w', record_exists demo_record unreadable_ledger = (Val false, w') /\
             exists w'', save_record quiet_env demo_record unreadable_ledger = (Val tt, w'') /\
                         rows (sheet (excel w'')) = [stored_row demo_record].
Proof.
  split; [vm_compute; reflexivity|].
  destruct (proj2 (record_exists_fails_open quiet_env demo_record unreadable_ledger)
              (or_introl eq_refl)) as (w' & He & _ & _ & Happ).
  exists w'. split; [exact He|]. destruct (Happ eq_refl) as (w'' & Hs & Hr).
  exists w''. split; [exact Hs | exact Hr].
Defined.

(** ** The deduplication key *)

Lemma record_exists_true_inv record w w' :
  record_exists record w = (Val true, w') ->
  w' = w /\ readable (excel w) = true /\ has_key_columns (sheet (excel w)) /\
  exists f, to_float (amount record) = Some f /\
            existsb (row_matches record f) (rows (sheet (excel w))) = true.
Proof.
  intros H.
  assert (Hfalse : readable (excel w) = false \/ ~ has_key_columns (sheet (excel w)) \/
                   to_float (amount record) = None -> False).
  { intros Hc. destruct (record_exists_false_on_error record w Hc) as (w0 & H0 & _).
    congruence. }
  destruct (readable (excel w)) eqn:Hr; [|exfalso; apply Hfalse; left; reflexivity].
  destruct (decide (has_key_columns (sheet (excel w)))) as [Hk|Hk];
    [|exfalso; apply Hfalse; right; left; exact Hk].
  destruct (to_float (amount record)) as [f|] eqn:Hf;
    [|exfalso; apply Hfalse; right; right; reflexivity].
  rewrite (record_exists_healthy record f w Hr Hk Hf) in H.
  injection H as Hb Hw. split; [now symmetry|]. split; [reflexivity|].
  split; [exact Hk|]. exists f. split; [reflexivity | exact Hb].
Qed.

Lemma existsb_row_matches_same_key r1 r2 f rs :
  same_key r1 r2 -> existsb (row_matches r1 f) rs = existsb (row_matches r2 f) rs.
Proof.
  intros Hk. induction rs as [|r rs IH]; [reflexivity|]. cbn [existsb].
  now rewrite IH, (row_matches_same_key r1 r2 f r Hk).
Qed.

Section Dedup.
Variable env : Env.

(** After a save that returned, a record with the same key is found. *)
Lemma found_after_save r1 r2 w w1 s c e :
  amount r1 = Finite s c e ->
  same_key r1 r2 ->
  save_record env r1 w = (Val tt, w1) ->
  record_exists r2 w1 = (Val true, w1).
Proof.
  intros Ha Hk Hsave.
  destruct (to_float_finite s c e) as (f & Hf & Hnum). rewrite <- Ha in Hf.
  assert (Hf2 : to_float (amount r2) = Some f) by (destruct Hk as (_ & <- & _); exact Hf).
  destruct (record_exists_total r1 w) as (b & w0 & He & Hs0).
  rewrite (save_record_unfold env r1 w b w0 He) in Hsave. destruct b.
  - inversion Hsave as [Hw1]. clear Hsave.
    apply record_exists_true_inv in He as (-> & Hr & Hcols & f' & Hf' & Hex).
    assert (f' = f) by congruence. subst f'.
    rewrite (record_exists_healthy r2 f (with_log (info_record_exists r1) w)); try assumption.
    cbn [excel with_log]. now rewrite <- (existsb_row_matches_same_key r1 r2 f _ Hk), Hex.
  - rewrite append_record_spec in Hsave.
    destruct (write_ok env (concat (loaded w0) (new_row r1))); [|discriminate].
    inversion Hsave as [Hw1]. clear Hsave.
    rewrite (record_exists_healthy r2 f); cbn [excel with_log with_file written sheet readable];
      [| reflexivity | apply key_columns_written | exact Hf2].
    rewrite rows_written, existsb_snoc, (row_matches_stored r1 f r2 f Hf).
    destruct Hk as (-> & _ & -> & ->).
    rewrite !String.eqb_refl, (float_eqb_refl f Hnum). cbn [andb]. now rewrite orb_true_r.
Qed.

(** A save on a readable ledger with no matching row and a working disk
    appends the record's row. *)
Lemma save_appends record f w :
  readable (excel w) = true ->
  has_key_columns (sheet (excel w)) ->
  to_float (amount record) = Some f ->
  existsb (row_matches record f) (rows (sheet (excel w))) = false ->
  write_ok env (concat (sheet (excel w)) (new_row record)) = true ->
  save_record env record w
  = (Val tt, with_log (info_record_saved record)
               (with_file (written (concat (sheet (excel w)) (new_row record))) w)).
Proof.
  intros Hr Hk Hf Hno Hw.
  rewrite (save_record_unfold env record w false w);
    [|now rewrite (record_exists_healthy record f w Hr Hk Hf), Hno].
  rewrite append_record_spec. unfold loaded, after_load. now rewrite Hr, Hw.
Qed.

(** A save that finds a matching row changes nothing but the log. *)
Lemma save_skips record w :
  record_exists record w = (Val true, w) ->
  save_record env record w = (Val tt, with_log (info_record_exists record) w).
Proof. intros H. now rewrite (save_record_unfold env record w true w H). Qed.
End Dedup.

(** Two records equal in every field but the amount, 100000000000000000.00
    against 100000000000000000.01: once the first is saved, the existence
    check finds the second and saving it adds no row, because both amounts
    convert to the same binary64. *)
Lemma dedup_amount_cent_counterexample :
  let r1 := with_amount huge_amount demo_record in
  let r2 := with_amount huge_amount_plus_cent demo_record in
  let w1 := (save_record quiet_env r1 (start_process new_file 0)).2 in
  amount r1 = Finite false 10000000000000000000 (-2) /\
  amount r2 = Finite false 10000000000000000001 (-2) /\
  ledger w1 = [row_cells (stored_row r1)] /\
  (record_exists r2 w1).1 = Val true /\
  ledger (save_record quiet_env r2 w1).2 = [row_cells (stored_row r1)].
Proof.
  cbv zeta. split; [reflexivity|]. split; [reflexivity|].
  split; [vm_compute; reflexivity|]. split; vm_compute; reflexivity.
Qed.

(** C4, as the code has it. The existence check compares the date text, the
    amount converted to binary64, the provider name and the payer name, and
    nothing else. (1) After a save of a record with a finite amount has
    returned, any record with the same key (whatever its subject or
    processed-at time) is found by the check and saving it changes nothing
    in the file. (2) Two records whose amounts convert to different binary64
    values are distinct for the check; on a readable ledger with no row
    matching either and a working disk both are persisted, in order. *)
Theorem dedup_key_spec (env : Env) (r1 r2 : PaymentRecord) (w : World) :
  (forall w1 s c e,
      amount r1 = Finite s c e ->
      same_key r1 r2 ->
      save_record env r1 w = (Val tt, w1) ->
      record_exists r2 w1 = (Val true, w1) /\
      exists w2, save_record env r2 w1 = (Val tt, w2) /\ excel w2 = excel w1) /\
  (forall f1 f2,
      to_float (amount r1) = Some f1 ->
      to_float (amount r2) = Some f2 ->
      float_eqb f1 f2 = false ->
      row_matches r2 f2 (stored_row r1) = false /\
      (readable (excel w) = true ->
       has_key_columns (sheet (excel w)) ->
       existsb (row_matches r1 f1) (rows (sheet (excel w))) = false ->
       existsb (row_matches r2 f2) (rows (stored_frame (sheet (excel w)))) = false ->
       write_ok env (concat (sheet (excel w)) (new_row r1)) = true ->
       write_ok env (concat (stored_frame (concat (sheet (excel w)) (new_row r1)))
                            (new_row r2)) = true ->
       exists w1 w2,
         save_record env r1 w = (Val tt, w1) /\
         record_exists r2 w1 = (Val false, w1) /\
         save_record env r2 w1 = (Val tt, w2) /\
         rows (sheet (excel w2))
         = (rows (stored_frame (sheet (excel w))) ++ [stored_row r1; stored_row r2])%list)).
Proof.
  split.
  - intros w1 s c e Ha Hk Hsave.
    assert (Hfound := found_after_save env r1 r2 w w1 s c e Ha Hk Hsave).
    split; [exact Hfound|]. rewrite (save_skips env r2 w1 Hfound).
    eexists. split; reflexivity.
  - intros f1 f2 Hf1 Hf2 Hne.
    assert (Hrow : row_matches r2 f2 (stored_row r1) = false).
    { rewrite (row_matches_stored r1 f1 r2 f2 Hf1), Hne.
      now rewrite andb_false_r. }
    split; [exact Hrow|]. intros Hr Hk Hno1 Hno2 Hw1 Hw2.
    set (w1 := with_log (info_record_saved r1)
                 (with_file (written (concat (sheet (excel w)) (new_row r1))) w)).
    assert (Hs1 : save_record env r1 w = (Val tt, w1)) by now apply (save_appends env r1 f1).
    assert (He2 : record_exists r2 w1 = (Val false, w1)).
    { rewrite (record_exists_healthy r2 f2 w1);
        [| reflexivity | apply key_columns_written | exact Hf2].
      cbn [w1 excel with_log with_file written sheet].
      now rewrite rows_written, existsb_snoc, Hno2, Hrow. }
    exists w1. eexists. split; [exact Hs1|]. split; [exact He2|]. split.
    + apply (save_appends env r2 f2 w1);
        [reflexivity | apply key_columns_written | exact Hf2 | | exact Hw2].
      cbn [w1 excel with_log with_file written sheet].
      now rewrite rows_written, existsb_snoc, Hno2, Hrow.
    + cbn [w1 excel with_log with_file written sheet].
      rewrite rows_written, stored_frame_idempotent, rows_written.
      now rewrite <- app_assoc.
Qed.

Lemma dedup_key_spec_witness :
  let w := start_process new_file 0 in
  let r1 := demo_record in
  let r2 := with_subject "Fwd: You received a payment" demo_record in
  let r3 := with_amount (Finite false 7501 (-2)) demo_record in
  (exists w1, save_record quiet_env r1 w = (Val tt, w1) /\
              record_exists r2 w1 = (Val true, w1) /\
              exists w2, save_record quiet_env r2 w1 = (Val tt, w2) /\ excel w2 = excel w1) /\
  (exists w1 w2, save_record quiet_env r1 w = (Val tt, w1) /\
                 record_exists r3 w1 = (Val false, w1) /\
                 save_record quiet_env r3 w1 = (Val tt, w2) /\
                 rows (sheet (excel w2)) = [stored_row r1; stored_row r3]).
Proof.
  intros w r1 r2 r3. split.
  - exists (with_log (info_record_saved r1)
              (with_file (written (concat (sheet (excel w)) (new_row r1))) w)).
    assert (Hs : save_record quiet_env r1 w
                 = (Val tt, with_log (info_record_saved r1)
                              (with_file (written (concat (sheet (excel w)) (new_row r1))) w))).
    { apply (save_appends quiet_env r1 seventy_five w); try reflexivity.
      apply empty_frame_has_key_columns. }
    split; [exact Hs|].
    apply (proj1 (dedup_key_spec quiet_env r1 r2 w) _ false 7500%N (-2)%Z eq_refl);
      [|exact Hs].
    repeat split.
  - destruct (proj2 (dedup_key_spec quiet_env r1 r3 w) seventy_five seventy_five_01
                eq_refl eq_refl eq_refl) as [_ H].
    apply H; try reflexivity. apply empty_frame_has_key_columns.
Defined.

(** ** Summary statistics *)

Lemma get_summary_stats_unfold w :
  get_summary_stats w =
  let df := loaded w in
  if bool_decide (rows df = []) || bool_decide (columns df = [])
  then (Val empty_stats, after_load w)
  else
    match column df "Amount" with
    | Exc e => (Val (error_stats e), with_log (error_stats_failed e) (after_load w))
    | Val amounts =>
        match numeric amounts with
        | Exc e => (Val (error_stats e), with_log (error_stats_failed e) (after_load w))
        | Val fs =>
            match column df "Client Name" with
            | Exc e => (Val (error_stats e), with_log (error_stats_failed e) (after_load w))
            | Val names =>
                match column df "Source" with
                | Exc e => (Val (error_stats e), with_log (error_stats_failed e) (after_load w))
                | Val sources =>
                    (Val (full_stats (length (rows df)) (sum fs) (mean fs) (maximum fs)
                            (minimum fs) (nunique names) (value_counts sources)),
                     after_load w)
                end
            end
        end
    end.
Proof.
  unfold get_summary_stats. unfold try_except, mbind at 1, M_bind at 1.
  rewrite load_spec. cbv zeta.
  destruct (bool_decide (rows (loaded w) = []) || bool_decide (columns (loaded w) = []));
    [reflexivity|].
  unfold mbind, M_bind, lift, mret, M_ret, logger.
  destruct (column (loaded w) "Amount") as [amounts|e]; [|reflexivity].
  destruct (numeric amounts) as [fs|e]; [|reflexivity].
  destruct (column (loaded w) "Client Name") as [names|e]; [|reflexivity].
  destruct (column (loaded w) "Source") as [sources|e]; reflexivity.
Qed.

Lemma get_summary_stats_shape w :
  exists m, (get_summary_stats w).1 = Val m /\ stats_shape m.
Proof.
  rewrite get_summary_stats_unfold. cbv zeta.
  destruct (bool_decide (rows (loaded w) = []) || bool_decide (columns (loaded w) = []));
    [eexists; split; [reflexivity | constructor]|].
  destruct (column (loaded w) "Amount") as [amounts|e];
    [|eexists; split; [reflexivity | constructor]].
  destruct (numeric amounts) as [fs|e]; [|eexists; split; [reflexivity | constructor]].
  destruct (column (loaded w) "Client Name") as [names|e];
    [|eexists; split; [reflexivity | constructor]].
  destruct (column (loaded w) "Source") as [sources|e];
    eexists; (split; [reflexivity | constructor]).
Qed.

Lemma stats_of_empty w :
  rows (loaded w) = [] -> get_summary_stats w = (Val empty_stats, after_load w).
Proof.
  intros H. rewrite get_summary_stats_unfold. cbv zeta.
  now rewrite (bool_decide_eq_true_2 _ H).
Qed.

Lemma stats_of_one_fifty record w :
  amount record = Finite false 5000 (-2) ->
  excel w = written (concat empty_frame (new_row record)) ->
  get_summary_stats w
  = (Val (full_stats 1 fifty fifty fifty fifty 1 (<[value (source record) := 1%nat]> ∅)), w).
Proof.
  intros Ha Hx. rewrite get_summary_stats_unfold. cbv zeta.
  unfold loaded, after_load. rewrite Hx. cbn [written readable sheet].
  assert (Hrows : rows (stored_frame (concat empty_frame (new_row record))) = [stored_row record])
    by apply rows_written.
  assert (Hcols : columns (stored_frame (concat empty_frame (new_row record))) = ledger_columns)
    by reflexivity.
  rewrite (bool_decide_eq_false_2 (rows _ = [])) by (rewrite Hrows; discriminate).
  rewrite (bool_decide_eq_false_2 (columns _ = [])) by (rewrite Hcols; discriminate).
  cbn [orb].
  rewrite !column_present by (rewrite Hcols; unfold ledger_columns; rewrite !elem_of_cons; tauto).
  rewrite Hrows. cbn [fmap list_fmap].
  destruct (stored_row_cells record) as (_ & -> & -> & ->). rewrite Ha.
  change (stored_cell (CDec (Finite false 5000 (-2)))) with (CNum fifty).
  change (numeric [CNum fifty]) with (Val (A:=list float) [fifty]). cbv iota.
  change (sum [fifty]) with fifty. change (mean [fifty]) with fifty.
  change (maximum [fifty]) with fifty. change (minimum [fifty]) with fifty.
  reflexivity.
Qed.

(** The summary of a new, empty ledger has a record count and a total and
    nothing else: no mean, maximum, minimum, payer count or per-provider
    counts. *)
Lemma summary_stats_empty_counterexample :
  exists m, (get_summary_stats (start_process new_file 0)).1 = Val m /\
            m !! "total_records" = Some (SInt 0) /\
            m !! "total_amount" = Some (SFloat zero) /\
            m !! "average_amount" = None /\ m !! "max_amount" = None /\
            m !! "min_amount" = None /\ m !! "unique_clients" = None /\
            m !! "by_source" = None.
Proof.
  exists empty_stats. split; [now rewrite stats_of_empty|].
  repeat split; vm_compute; reflexivity.
Qed.

Lemma dom_empty_stats : dom empty_stats = ({["total_records"; "total_amount"]} : gset string).
Proof. unfold empty_stats. rewrite !dom_insert_L, dom_empty_L. set_solver. Qed.

Lemma dom_full_stats n total avg hi lo clients by_source :
  dom (full_stats n total avg hi lo clients by_source)
  = ({["total_records"; "total_amount"; "average_amount"; "max_amount"; "min_amount";
       "unique_clients"; "by_source"]} : gset string).
Proof. unfold full_stats. rewrite !dom_insert_L, dom_empty_L. set_solver. Qed.

(** C9, as the code has it. Over a store without rows the summary is exactly
    the record count 0 and the total 0.0. Over a store holding exactly one
    record of 50.00 it is the count 1, total, mean, maximum and minimum all
    50.0, one payer, and the provider counted once. A summary is always
    returned (never raised) and has one of three shapes: the two-entry one of
    the empty store, the seven-entry one (count, total, mean, maximum,
    minimum, payer count, per-provider counts), or an error entry; the
    seven-entry summary of a non-empty store differs from the empty one.
    Over a store with rows (and columns) the summary is never the two-entry
    one: it is the seven-entry summary whose count is the number of rows, or
    an error entry. *)
Theorem summary_stats_spec (w : World) :
  (rows (loaded w) = [] -> (get_summary_stats w).1 = Val empty_stats) /\
  (forall record,
      amount record = Finite false 5000 (-2) ->
      excel w = written (concat empty_frame (new_row record)) ->
      (get_summary_stats w).1
      = Val (full_stats 1 fifty fifty fifty fifty 1 (<[value (source record) := 1%nat]> ∅))) /\
  (exists m, (get_summary_stats w).1 = Val m /\ stats_shape m) /\
  dom empty_stats = ({["total_records"; "total_amount"]} : gset string) /\
  (forall n total avg hi lo clients by_source,
      dom (full_stats n total avg hi lo clients by_source)
      = ({["total_records"; "total_amount"; "average_amount"; "max_amount"; "min_amount";
           "unique_clients"; "by_source"]} : gset string) /\
      full_stats n total avg hi lo clients by_source !! "total_records" = Some (SInt n) /\
      (n <> 0%nat -> full_stats n total avg hi lo clients by_source <> empty_stats)) /\
  (rows (loaded w) <> [] -> columns (loaded w) <> [] ->
   exists m,
     (get_summary_stats w).1 = Val m /\ m <> empty_stats /\
     ((exists total avg hi lo clients by_source,
          m = full_stats (length (rows (loaded w))) total avg hi lo clients by_source) \/
      (exists e, m = error_stats e))).
Proof.
  assert (Hfull : forall n total avg hi lo clients by_source,
             n <> 0%nat -> full_stats n total avg hi lo clients by_source <> empty_stats).
  { intros n total avg hi lo clients by_source Hn Heq.
    assert (Hl : full_stats n total avg hi lo clients by_source !! "total_records"
                 = Some (SInt n)) by apply lookup_insert_eq.
    rewrite Heq in Hl. unfold empty_stats in Hl.
    rewrite lookup_insert_eq in Hl. congruence. }
  split; [|split; [|split; [|split; [|split]]]].
  - intros H. now rewrite stats_of_empty.
  - intros record Ha Hx. now rewrite (stats_of_one_fifty record w Ha Hx).
  - apply get_summary_stats_shape.
  - apply dom_empty_stats.
  - intros n total avg hi lo clients by_source.
    split; [apply dom_full_stats | split; [apply lookup_insert_eq | apply Hfull]].
  - intros Hrows Hcols. rewrite get_summary_stats_unfold. cbv zeta.
    rewrite (bool_decide_eq_false_2 _ Hrows), (bool_decide_eq_false_2 _ Hcols). cbn [orb].
    assert (Herr : forall e, error_stats e <> empty_stats).
    { intros e Heq.
      assert (Hl : error_stats e !! "error" = Some (SError e)) by apply lookup_insert_eq.
      rewrite Heq in Hl. discriminate Hl. }
    destruct (column (loaded w) "Amount") as [amounts|e];
      [|eexists; split; [reflexivity | split; [apply Herr | right; eauto]]].
    destruct (numeric amounts) as [fs|e];
      [|eexists; split; [reflexivity | split; [apply Herr | right; eauto]]].
    destruct (column (loaded w) "Client Name") as [names|e];
      [|eexists; split; [reflexivity | split; [apply Herr | right; eauto]]].
    destruct (column (loaded w) "Source") as [sources|e];
      [|eexists; split; [reflexivity | split; [apply Herr | right; eauto]]].
    eexists. split; [reflexivity|]. split.
    + apply Hfull. destruct (rows (loaded w)); [contradiction | discriminate].
    + left. do 6 eexists. reflexivity.
Qed.

Lemma summary_stats_spec_witness :
  (get_summary_stats (start_process new_file 0)).1 = Val empty_stats /\
  (get_summary_stats fifty_ledger).1
  = Val (full_stats 1 fifty fifty fifty fifty 1 (<["Zelle" := 1%nat]> ∅)) /\
  full_stats 1 fifty fifty fifty fifty 1 (<["Zelle" := 1%nat]> ∅) <> empty_stats /\
  exists m, (get_summary_stats fifty_ledger).1 = Val m /\ m <> empty_stats.
Proof.
  split; [exact (proj1 (summary_stats_spec (start_process new_file 0)) eq_refl)|].
  split; [exact (proj1 (proj2 (summary_stats_spec fifty_ledger)) fifty_record eq_refl eq_refl)|].
  split.
  - destruct (proj1 (proj2 (proj2 (proj2 (proj2 (summary_stats_spec fifty_ledger)))))
                1%nat fifty fifty fifty fifty 1%nat (<["Zelle" := 1%nat]> ∅)) as (_ & _ & H).
    apply H. discriminate.
  - destruct (proj2 (proj2 (proj2 (proj2 (proj2 (summary_stats_spec fifty_ledger))))))
      as (m & Hm & Hne & _).
    + discriminate.
    + discriminate.
    + exists m. split; [exact Hm | exact Hne].
Defined.

(** ** The processor and the check cycle, step by step *)

Section ProcessorFacts.
Variable env : Env.
Variable self : PaymentProcessor.

Lemma process_email_unfold msg body subject w :
  process_email env self msg body subject w =
  match msg_from msg with
  | HHeader => (Exc AttributeError, w)
  | HStr from_email =>
      match identify_payment_source self from_email subject with
      | None => (Val None, w)
      | Some src =>
          match lookup_pattern (patterns self) src with
          | None => (Exc KeyError, w)
          | Some pattern =>
              match extract_amount (body ++ " " ++ subject) (amount_pattern pattern) with
              | Exc (PaymentProcessorError why) =>
                  (Val None, with_log (error_process_failed src why) w)
              | Exc e => (Exc e, w)
              | Val d =>
                  match msg_date msg with
                  | HHeader => (Exc AttributeError, w)
                  | HStr h =>
                      if parsedate_overflow env h then (Exc OverflowError, w)
                      else
                        match parsedate_to_datetime env h with
                        | Some dt =>
                            (Val (Some (candidate src pattern body subject d dt
                                          (clock env (ticks w)))),
                             with_ticks (S (ticks w)) w)
                        | None =>
                            (Val (Some (candidate src pattern body subject d
                                          (clock env (ticks w)) (clock env (S (ticks w))))),
                             with_ticks (S (S (ticks w))) (with_log (warn_date_unparsed h) w))
                        end
                  end
              end
          end
      end
  end.
Proof.
  unfold process_email. destruct (msg_from msg) as [from_email|]; [|reflexivity].
  destruct (identify_payment_source self from_email subject) as [src|]; [|reflexivity].
  destruct (lookup_pattern (patterns self) src) as [pattern|]; [|reflexivity].
  unfold try_except, mbind at 1, M_bind at 1, lift.
  destruct (extract_amount (body +:+ " " +:+ subject) (amount_pattern pattern)) as [d|e].
  - unfold parse_email_date. destruct (msg_date msg) as [h|]; [|reflexivity].
    destruct (parsedate_overflow env h); [reflexivity|].
    destruct (parsedate_to_datetime env h) as [dt|]; reflexivity.
  - destruct e; reflexivity.
Qed.

Lemma process_email_frame msg body subject w r w' :
  process_email env self msg body subject w = (r, w') ->
  processed_emails w' = processed_emails w /\ excel w' = excel w.
Proof.
  rewrite process_email_unfold. intros H.
  repeat match type of H with
         | (match ?x with _ => _ end) = _ => destruct x
         end; injection H as _ <-; split; reflexivity.
Qed.
End ProcessorFacts.

Section TrackerFacts.
Variable env : Env.
Variable self : PaymentProcessor.

Lemma save_record_frame record w r w' :
  save_record env record w = (r, w') -> processed_emails w' = processed_emails w.
Proof.
  destruct (record_exists_total record w) as (b & w0 & He & (Hp & _)).
  rewrite (save_record_unfold env record w b w0 He). destruct b.
  - intros [= _ <-]. exact Hp.
  - rewrite append_record_spec. unfold after_load.
    destruct (write_ok env _), (readable (excel w0)); intros [= _ <-]; exact Hp.
Qed.

Lemma handle_email_unfold email_id w :
  handle_email env self email_id w =
  if decide (email_id ∈ processed_emails w) then (Val false, w)
  else
    match fetch_email env email_id with
    | Exc e => (Exc e, w)
    | Val None => (Val false, w)
    | Val (Some msg) =>
        match decode_subject msg with
        | Exc e => (Exc e, w)
        | Val subject =>
            match extract_body msg with
            | Exc e => (Exc e, w)
            | Val body =>
                match process_email env self msg body subject w with
                | (Exc e, wp) => (Exc e, wp)
                | (Val None, wp) => (Val false, mark_processed email_id wp)
                | (Val (Some record), wp) =>
                    match save_record env record wp with
                    | (Val _, ws) =>
                        (Val true,
                         mark_processed email_id (with_log (info_new_payment record) ws))
                    | (Exc StorageError, ws) =>
                        (Val false,
                         mark_processed email_id
                           (with_log (error_save_failed StorageError) ws))
                    | (Exc e, ws) => (Exc e, ws)
                    end
                end
            end
        end
    end.
Proof.
  unfold handle_email. unfold mbind at 1, M_bind at 1, get_processed.
  destruct (decide (email_id ∈ processed_emails w)); [reflexivity|].
  unfold mbind at 1, M_bind at 1, lift.
  destruct (fetch_email env email_id) as [[msg|]|e]; [|reflexivity|reflexivity].
  unfold mbind at 1, M_bind at 1.
  destruct (decode_subject msg) as [subject|e]; [|reflexivity].
  unfold mbind at 1, M_bind at 1.
  destruct (extract_body msg) as [body|e]; [|reflexivity].
  unfold mbind at 1, M_bind at 1.
  destruct (process_email env self msg body subject w) as [[[record|]|e] wp];
    [|reflexivity|reflexivity].
  unfold mbind at 1, M_bind at 1, try_except, mbind at 1, M_bind at 1.
  destruct (save_record env record wp) as [[[]|e] ws]; [reflexivity|].
  destruct e; reflexivity.
Qed.

Lemma handle_email_seen email_id w :
  email_id ∈ processed_emails w -> handle_email env self email_id w = (Val false, w).
Proof. intros H. rewrite handle_email_unfold. now rewrite decide_True. Qed.

Lemma handle_email_grows email_id w :
  processed_emails w ⊆ processed_emails (handle_email env self email_id w).2.
Proof.
  rewrite handle_email_unfold.
  destruct (decide (email_id ∈ processed_emails w)); [reflexivity|].
  destruct (fetch_email env email_id) as [[msg|]|e]; [|reflexivity|reflexivity].
  destruct (decode_subject msg) as [subject|e]; [|reflexivity].
  destruct (extract_body msg) as [body|e]; [|reflexivity].
  destruct (process_email env self msg body subject w) as [[[record|]|e] wp] eqn:Hp;
    apply process_email_frame in Hp as [Hp _].
  - destruct (save_record env record wp) as [[[]|e] ws] eqn:Hs;
      apply save_record_frame in Hs;
      [|destruct e]; cbn [snd mark_processed with_log processed_emails];
      rewrite ?Hs, ?Hp; first [reflexivity | apply union_subseteq_r].
  - cbn [snd mark_processed processed_emails]. rewrite Hp. apply union_subseteq_r.
  - cbn [snd]. now rewrite Hp.
Qed.

Lemma for_each_email_grows email_ids n w :
  processed_emails w ⊆ processed_emails (for_each_email env self email_ids n w).2.
Proof.
  revert n w. induction email_ids as [|email_id rest IH]; intros n w; [reflexivity|].
  cbn [for_each_email]. assert (H := handle_email_grows email_id w).
  destruct (handle_email env self email_id w) as [[b|e] w']; cbn [snd] in H.
  - etransitivity; [exact H | apply IH].
  - exact H.
Qed.

Lemma process_sender_grows sender n w :
  processed_emails w ⊆ processed_emails (process_sender env self sender n w).2.
Proof.
  unfold process_sender. destruct (search_emails env sender) as [email_ids|e].
  - assert (H := for_each_email_grows email_ids n
                   (logger (debug_found sender (length email_ids)) w).2).
    destruct (for_each_email env self email_ids n _) as [[[[]|e] k] w']; cbn [snd] in *.
    + exact H.
    + destruct e; exact H.
  - destruct e; reflexivity.
Qed.

Lemma for_each_sender_grows senders n w :
  processed_emails w ⊆ processed_emails (for_each_sender env self senders n w).2.
Proof.
  revert n w. induction senders as [|sender rest IH]; intros n w; [reflexivity|].
  cbn [for_each_sender]. assert (H := process_sender_grows sender n w).
  destruct (process_sender env self sender n w) as [k w']. cbn [snd] in H.
  etransitivity; [exact H | apply IH].
Qed.

(** The seen set only grows during a check cycle. *)
Lemma process_new_emails_grows w :
  processed_emails w ⊆ processed_emails (process_new_emails env self w).2.
Proof. apply for_each_sender_grows. Qed.

(** The message loop stops at the first message whose handling raises. *)
Lemma for_each_email_raise email_id rest n w e w' :
  handle_email env self email_id w = (Exc e, w') ->
  for_each_email env self (email_id :: rest) n w = (Exc e, n, w').
Proof. intros H. cbn [for_each_email]. now rewrite H. Qed.

Lemma for_each_email_step email_id rest n w b w' :
  handle_email env self email_id w = (Val b, w') ->
  for_each_email env self (email_id :: rest) n w
  = for_each_email env self rest (if b then S n else n) w'.
Proof. intros H. cbn [for_each_email]. now rewrite H. Qed.

Lemma for_each_email_app ids1 ids2 n w n1 w1 :
  for_each_email env self ids1 n w = (Val tt, n1, w1) ->
  for_each_email env self (ids1 ++ ids2) n w = for_each_email env self ids2 n1 w1.
Proof.
  revert n w. induction ids1 as [|email_id rest IH]; intros n w H.
  - cbn [for_each_email] in H. now injection H as <- <-.
  - cbn [app for_each_email] in *.
    destruct (handle_email env self email_id w) as [[b|e] w']; [|discriminate].
    now apply IH.
Qed.

(** How handling goes for a message that yields a candidate record. *)
Lemma handle_email_candidate email_id msg subject body record w wp :
  email_id ∉ processed_emails w ->
  fetch_email env email_id = Val (Some msg) ->
  decode_subject msg = Val subject ->
  extract_body msg = Val body ->
  process_email env self msg body subject w = (Val (Some record), wp) ->
  handle_email env self email_id w =
  match save_record env record wp with
  | (Val _, ws) =>
      (Val true, mark_processed email_id (with_log (info_new_payment record) ws))
  | (Exc _, ws) =>
      (Val false, mark_processed email_id (with_log (error_save_failed StorageError) ws))
  end.
Proof.
  intros Hnew Hf Hs Hb Hp. rewrite handle_email_unfold, decide_False by exact Hnew.
  rewrite Hf, Hs, Hb, Hp.
  destruct (save_record_outcome env record wp) as [ws [H|H]]; now rewrite H.
Qed.
End TrackerFacts.

(** ** Seen messages *)

Section Seen.
Variable env : Env.
Variable self : PaymentProcessor.

(** C8. A message that yields a candidate record is added to the seen set
    whatever the persistence step does: after a save that returns (the row
    was written, or an equal row was found and nothing was written) and after
    a save that raises, which can only be the storage error and is logged,
    not propagated. From then on handling the same identifier does nothing,
    in any later state of the process, and the identifier is still in the
    seen set after any further check cycle. *)
Theorem handled_message_is_marked_seen
        (email_id : string) (msg : EmailMessage) (subject body : string)
        (record : PaymentRecord) (w wp : World) :
  email_id ∉ processed_emails w ->
  fetch_email env email_id = Val (Some msg) ->
  decode_subject msg = Val subject ->
  extract_body msg = Val body ->
  process_email env self msg body subject w = (Val (Some record), wp) ->
  exists (b : bool) (w' : World),
    handle_email env self email_id w = (Val b, w') /\
    email_id ∈ processed_emails w' /\
    (forall ws, save_record env record wp = (Val tt, ws) ->
                b = true /\ excel w' = excel ws) /\
    (record_exists record wp = (Val true, wp) ->
     b = true /\ excel w' = excel wp) /\
    (forall e ws, save_record env record wp = (Exc e, ws) ->
                  e = StorageError /\ b = false /\ excel w' = excel ws /\
                  log w' = error_save_failed StorageError :: log ws) /\
    (forall w'', processed_emails w' ⊆ processed_emails w'' ->
                 handle_email env self email_id w'' = (Val false, w'')) /\
    email_id ∈ processed_emails (process_new_emails env self w').2.
Proof.
  intros Hnew Hf Hs Hb Hp.
  assert (Hh := handle_email_candidate env self email_id msg subject body record w wp
                  Hnew Hf Hs Hb Hp).
  assert (Hmark : forall x, email_id ∈ processed_emails (mark_processed email_id x)).
  { intros x. cbn [mark_processed processed_emails].
    apply elem_of_union_l, elem_of_singleton_2. reflexivity. }
  destruct (save_record_outcome env record wp) as [ws [Hsave|Hsave]]; rewrite Hsave in Hh.
  - exists true. eexists. split; [exact Hh|]. split; [apply Hmark|].
    split; [|split; [|split; [|split]]].
    + intros ws' H. rewrite Hsave in H. injection H as <-. now split.
    + intros He. rewrite (save_skips env record wp He) in Hsave.
      injection Hsave as <-. now split.
    + intros e ws' H. rewrite Hsave in H. discriminate H.
    + intros w'' Hsub. apply handle_email_seen, Hsub, Hmark.
    + apply process_new_emails_grows, Hmark.
  - exists false. eexists. split; [exact Hh|]. split; [apply Hmark|].
    split; [|split; [|split; [|split]]].
    + intros ws' H. rewrite Hsave in H. discriminate H.
    + intros He. rewrite (save_skips env record wp He) in Hsave. discriminate.
    + intros e ws' H. rewrite Hsave in H. injection H as <- <-. repeat split.
    + intros w'' Hsub. apply handle_email_seen, Hsub, Hmark.
    + apply process_new_emails_grows, Hmark.
Qed.
End Seen.

Lemma handled_message_is_marked_seen_witness :
  let env := mailbox [("1", zelle_message good_header)] false in
  let w := start_process new_file 0 in
  exists (b : bool) (w' : World),
    handle_email env new_processor "1" w = (Val b, w') /\
    "1" ∈ processed_emails w' /\ b = false /\ ledger w' = [].
Proof.
  intros env w.
  destruct (handled_message_is_marked_seen env new_processor "1" (zelle_message good_header)
              "You received a payment" "John Smith sent you $75.00"
              (candidate ZELLE zelle_pattern "John Smith sent you $75.00"
                 "You received a payment" (Finite false 7500 (-2)) demo_date
                 (clock env 0))
              w (with_ticks 1 w))
    as (b & w' & Hh & Hin & _ & _ & Hfail & _).
  - apply not_elem_of_empty.
  - reflexivity.
  - reflexivity.
  - reflexivity.
  - vm_compute. reflexivity.
  - exists b, w'. split; [exact Hh|]. split; [exact Hin|].
    destruct (save_record_outcome env
                (candidate ZELLE zelle_pattern "John Smith sent you $75.00"
                   "You received a payment" (Finite false 7500 (-2)) demo_date (clock env 0))
                (with_ticks 1 w)) as [ws [Hs|Hs]].
    + vm_compute in Hs. discriminate Hs.
    + destruct (Hfail _ _ Hs) as (_ & -> & Hx & _). split; [reflexivity|].
      unfold ledger. rewrite Hx.
      vm_compute in Hs. injection Hs as <-. reflexivity.
Defined.

(** ** Where exceptions are caught *)

(** Message 1 has raw bytes in its From header, so classifying it raises;
    message 2, from the same sender, is a valid payment notice. The cycle
    persists nothing, marks neither message as seen and logs one unexpected
    error for the sender: message 2 was not handled. *)
Lemma sender_loop_abort_counterexample :
  let env := mailbox [("1", raw_from_message); ("2", zelle_message good_header)] true in
  let cycle := process_new_emails env new_processor (start_process new_file 0) in
  cycle.1 = 0%nat /\ ledger cycle.2 = [] /\ elements (processed_emails cycle.2) = [] /\
  In (error_unexpected "alert@zellepay.com" AttributeError) (log cycle.2).
Proof. vm_compute. (repeat split; auto 20). Qed.

Section Boundaries.
Variable env : Env.
Variable self : PaymentProcessor.

(** A message whose handling raises is not marked as seen, and the file is
    left as it was. *)
Lemma handle_email_raise_frame email_id w e w' :
  handle_email env self email_id w = (Exc e, w') ->
  processed_emails w' = processed_emails w /\ excel w' = excel w.
Proof.
  rewrite handle_email_unfold.
  destruct (decide (email_id ∈ processed_emails w)); [discriminate|].
  destruct (fetch_email env email_id) as [[msg|]|e0]; [|discriminate|now intros [= _ <-]].
  destruct (decode_subject msg) as [subject|e0]; [|now intros [= _ <-]].
  destruct (extract_body msg) as [body|e0]; [|now intros [= _ <-]].
  destruct (process_email env self msg body subject w) as [[[record|]|e0] wp] eqn:Hp;
    apply process_email_frame in Hp; [|discriminate|now intros [= _ <-]].
  destruct (save_record_outcome env record wp) as [ws [Hs|Hs]]; rewrite Hs; discriminate.
Qed.

(** C7, as the code has it. (1) An extraction error (amount not found or
    malformed) of a classified message is caught for that message alone: the
    message is logged, marked as seen and skipped, and the loop goes on with
    the sender's remaining messages. (2) Any exception that escapes the
    handling of a message is caught by the handler around the sender: that
    message is not marked as seen, the sender's remaining messages are not
    handled in this cycle, the error is logged once for the sender, and the
    cycle goes on with the next sender. *)
Theorem error_boundaries :
  (forall email_id msg subject body from_email src pattern why rest n w,
      email_id ∉ processed_emails w ->
      fetch_email env email_id = Val (Some msg) ->
      decode_subject msg = Val subject ->
      extract_body msg = Val body ->
      msg_from msg = HStr from_email ->
      identify_payment_source self from_email subject = Some src ->
      lookup_pattern (patterns self) src = Some pattern ->
      extract_amount (body ++ " " ++ subject) (amount_pattern pattern)
      = Exc (PaymentProcessorError why) ->
      let w' := mark_processed email_id (with_log (error_process_failed src why) w) in
      handle_email env self email_id w = (Val false, w') /\
      for_each_email env self (email_id :: rest) n w = for_each_email env self rest n w') /\
  (forall sender ids1 email_id ids2 senders n n1 w w1 e w2,
      search_emails env sender = Val (ids1 ++ email_id :: ids2)%list ->
      for_each_email env self ids1 n
        (with_log (debug_found sender (length (ids1 ++ email_id :: ids2)%list)) w)
      = (Val tt, n1, w1) ->
      handle_email env self email_id w1 = (Exc e, w2) ->
      processed_emails w2 = processed_emails w1 /\ excel w2 = excel w1 /\
      process_sender env self sender n w = (n1, sender_failed sender e w2) /\
      for_each_sender env self (sender :: senders) n w
      = for_each_sender env self senders n1 (sender_failed sender e w2)).
Proof.
  split.
  - intros email_id msg subject body from_email src pattern why rest n w
           Hnew Hf Hs Hb Hfrom Hsrc Hpat Hamt w'.
    assert (Hh : handle_email env self email_id w = (Val false, w')).
    { rewrite handle_email_unfold, decide_False by exact Hnew.
      rewrite Hf, Hs, Hb, process_email_unfold, Hfrom, Hsrc, Hpat, Hamt. reflexivity. }
    split; [exact Hh|]. now rewrite (for_each_email_step env self email_id rest n w false w' Hh).
  - intros sender ids1 email_id ids2 senders n n1 w w1 e w2 Hsearch Hloop Hraise.
    destruct (handle_email_raise_frame email_id w1 e w2 Hraise) as [Hp Hx].
    split; [exact Hp|]. split; [exact Hx|].
    assert (Hps : process_sender env self sender n w = (n1, sender_failed sender e w2)).
    { unfold process_sender. rewrite Hsearch.
      change (logger (debug_found sender (length (ids1 ++ email_id :: ids2)%list)) w).2
        with (with_log (debug_found sender (length (ids1 ++ email_id :: ids2)%list)) w).
      rewrite (for_each_email_app env self ids1 (email_id :: ids2) n _ n1 w1 Hloop).
      rewrite (for_each_email_raise env self email_id ids2 n1 w1 e w2 Hraise).
      destruct e; reflexivity. }
    split; [exact Hps|]. cbn [for_each_sender]. now rewrite Hps.
Qed.
End Boundaries.

Lemma error_boundaries_witness :
  let w := start_process new_file 0 in
  let env1 := mailbox [("1", no_amount_message); ("2", zelle_message good_header)] true in
  let env2 := mailbox [("1", raw_from_message); ("2", zelle_message good_header)] true in
  (handle_email env1 new_processor "1" w
   = (Val false, mark_processed "1" (with_log (error_process_failed ZELLE AmountNotFound) w)) /\
   for_each_email env1 new_processor ["1"; "2"] 0 w
   = for_each_email env1 new_processor ["2"] 0
       (mark_processed "1" (with_log (error_process_failed ZELLE AmountNotFound) w))) /\
  process_sender env2 new_processor "alert@zellepay.com" 0 w
  = (0%nat, sender_failed "alert@zellepay.com" AttributeError
              (with_log (debug_found "alert@zellepay.com" 2) w)).
Proof.
  intros w env1 env2. split.
  - apply (proj1 (error_boundaries env1 new_processor) "1" no_amount_message
             "You received a payment" "John Smith sent you money"
             "Zelle <alert@zellepay.com>" ZELLE zelle_pattern AmountNotFound ["2"] 0%nat w);
      try reflexivity.
    apply not_elem_of_empty.
  - apply (proj2 (error_boundaries env2 new_processor) "alert@zellepay.com" [] "1" ["2"] []
             0%nat 0%nat w (with_log (debug_found "alert@zellepay.com" 2) w) AttributeError
             (with_log (debug_found "alert@zellepay.com" 2) w)); reflexivity.
Defined.

(** ** The processed count *)

(** C6 at a failing input. The mailbox holds one payment notice. A first
    process persists its record and reports 1. A second, new process over the
    same file and mailbox persists nothing (the ledger is unchanged: the save
    found the record and skipped the write) and still reports 1 record
    processed. *)
Lemma count_includes_duplicates :
  let env := mailbox [("1", zelle_message good_header)] true in
  let first := process_new_emails env new_processor (start_process new_file 0) in
  let second := process_new_emails env new_processor (start_process (excel first.2) 7) in
  first.1 = 1%nat /\ length (ledger first.2) = 1%nat /\
  second.1 = 1%nat /\ ledger second.2 = ledger first.2.
Proof. vm_compute. repeat split. Qed.

(** ** Idempotence of the pipeline *)

Lemma provider_amount_pattern src pattern :
  lookup_pattern (patterns new_processor) src = Some pattern ->
  amount_pattern pattern = Patterns.amount.
Proof. destruct src; intros [= <-]; reflexivity. Qed.

Lemma provider_amount_finite text d :
  extract_amount text Patterns.amount = Val d -> exists c e, d = Finite false c e.
Proof.
  unfold extract_amount.
  destruct (search Patterns.amount text false) as [m|] eqn:Hs; [|discriminate].
  destruct (amount_group text m Hs) as (g & -> & Hg).
  destruct (of_string_number _ (remove_comma_number g Hg)) as [Hn | (c & e & Hn)];
    rewrite Hn; [discriminate|]. intros [= <-]. eauto.
Qed.

Section Again.
Variable env : Env.
Variable self : PaymentProcessor.

(** What a candidate is made of, and that the message yields a candidate in
    every state once it does in one. *)
Lemma process_email_candidate msg body subject w record wp :
  process_email env self msg body subject w = (Val (Some record), wp) ->
  exists from_email src pattern d h,
    msg_from msg = HStr from_email /\
    identify_payment_source self from_email subject = Some src /\
    lookup_pattern (patterns self) src = Some pattern /\
    extract_amount (body ++ " " ++ subject) (amount_pattern pattern) = Val d /\
    msg_date msg = HStr h /\
    forall w0,
      process_email env self msg body subject w0
      = match parsedate_to_datetime env h with
        | Some dt =>
            (Val (Some (candidate src pattern body subject d dt (clock env (ticks w0)))),
             with_ticks (S (ticks w0)) w0)
        | None =>
            (Val (Some (candidate src pattern body subject d
                          (clock env (ticks w0)) (clock env (S (ticks w0))))),
             with_ticks (S (S (ticks w0))) (with_log (warn_date_unparsed h) w0))
        end.
Proof.
  rewrite process_email_unfold.
  destruct (msg_from msg) as [from_email|] eqn:Hfrom; [|discriminate].
  destruct (identify_payment_source self from_email subject) as [src|] eqn:Hsrc; [|discriminate].
  destruct (lookup_pattern (patterns self) src) as [pattern|] eqn:Hpat; [|discriminate].
  destruct (extract_amount (body +:+ " " +:+ subject) (amount_pattern pattern)) as [d|e] eqn:Hamt;
    [|destruct e; discriminate].
  destruct (msg_date msg) as [h|] eqn:Hdate; [|discriminate].
  destruct (parsedate_overflow env h) eqn:Hover; [discriminate|].
  intros _. exists from_email, src, pattern, d, h.
  split; [reflexivity|]. split; [exact Hsrc|]. split; [exact Hpat|].
  split; [exact Hamt|]. split; [reflexivity|].
  intros w0. rewrite process_email_unfold, Hfrom, Hsrc, Hpat, Hamt, Hdate, Hover.
  reflexivity.
Qed.
End Again.

Lemma found_in_written df r1 r2 w s c e :
  excel w = written (concat df (new_row r1)) ->
  amount r1 = Finite s c e ->
  same_key r1 r2 ->
  record_exists r2 w = (Val true, w).
Proof.
  intros Hx Ha Hk.
  destruct (to_float_finite s c e) as (f & Hf & Hnum). rewrite <- Ha in Hf.
  assert (Hf2 : to_float (amount r2) = Some f) by (destruct Hk as (_ & <- & _); exact Hf).
  rewrite (record_exists_healthy r2 f w); rewrite ?Hx; cbn [written readable sheet];
    [| reflexivity | apply key_columns_written | exact Hf2].
  rewrite rows_written, existsb_snoc, (row_matches_stored r1 f r2 f Hf).
  destruct Hk as (-> & _ & -> & ->).
  rewrite !String.eqb_refl, (float_eqb_refl f Hnum). cbn [andb]. now rewrite orb_true_r.
Qed.

(** One payment notice whose Date header does not parse, handled by two new
    processes over the same file, the second a week later: the payment date
    falls back to the clock, the two candidates differ in their date, and the
    ledger ends with two rows for the one message. *)
Lemma restart_unparsed_date_counterexample :
  let env := mailbox [("1", zelle_message "not a date")] true in
  let first := process_new_emails env new_processor (start_process new_file 0) in
  let second := process_new_emails env new_processor (start_process (excel first.2) 7) in
  ledger first.2
  = [[CStr "2024-01-15"; CNum seventy_five; CStr "Zelle"; CStr "John Smith";
      CStr "You received a payment"; CStr "2024-01-16 10:30:00"]] /\
  ledger second.2
  = [[CStr "2024-01-15"; CNum seventy_five; CStr "Zelle"; CStr "John Smith";
      CStr "You received a payment"; CStr "2024-01-16 10:30:00"];
     [CStr "2024-01-22"; CNum seventy_five; CStr "Zelle"; CStr "John Smith";
      CStr "You received a payment"; CStr "2024-01-23 10:30:00"]].
Proof. vm_compute. repeat split. Qed.

(** C1, as the code has it, for a message that yields a candidate record and
    a readable ledger with no matching row and a working disk. Handling the
    message persists exactly one row, the candidate's. Handling it again in
    the same process does nothing: its identifier is in the seen set. In a
    new process over the resulting file, at any time, handling it leaves the
    file unchanged, provided the candidate gets the same payment date: the
    Date header parses, or the new run falls on the calendar day recorded by
    the first. (The new process still counts the message as processed.) *)
Theorem pipeline_idempotent (env : Env) (email_id : string) (msg : EmailMessage)
        (subject body : string) (record : PaymentRecord) (w wp : World) :
  email_id ∉ processed_emails w ->
  fetch_email env email_id = Val (Some msg) ->
  decode_subject msg = Val subject ->
  extract_body msg = Val body ->
  process_email env new_processor msg body subject w = (Val (Some record), wp) ->
  readable (excel w) = true ->
  has_key_columns (sheet (excel w)) ->
  (forall f, to_float (amount record) = Some f ->
             existsb (row_matches record f) (rows (sheet (excel w))) = false) ->
  write_ok env (concat (sheet (excel w)) (new_row record)) = true ->
  exists w1,
    handle_email env new_processor email_id w = (Val true, w1) /\
    rows (sheet (excel w1))
    = (rows (stored_frame (sheet (excel w))) ++ [stored_row record])%list /\
    handle_email env new_processor email_id w1 = (Val false, w1) /\
    forall t,
      (exists h dt, msg_date msg = HStr h /\ parsedate_to_datetime env h = Some dt) \/
      strftime_date (clock env t) = strftime_date (date record) ->
      exists w2,
        handle_email env new_processor email_id (start_process (excel w1) t) = (Val true, w2) /\
        excel w2 = excel w1 /\ email_id ∈ processed_emails w2.
Proof.
  intros Hnew Hf Hs Hb Hp Hr Hk Hno Hw.
  destruct (process_email_frame env new_processor msg body subject w _ wp Hp) as [Hpp Hpx].
  destruct (process_email_candidate env new_processor msg body subject w record wp Hp)
    as (from_email & src & pattern & d & h & Hfrom & Hsrc & Hpat & Hamt & Hdate & Hagain).
  assert (Hfin : exists c e, amount record = Finite false c e).
  { rewrite (provider_amount_pattern src pattern Hpat) in Hamt.
    destruct (provider_amount_finite _ d Hamt) as (c & e & ->).
    rewrite Hagain in Hp. exists c, e.
    destruct (parsedate_to_datetime env h); injection Hp as <- _; reflexivity. }
  destruct Hfin as (c & e & Hfin).
  destruct (to_float_finite false c e) as (f & Hfl & Hnum). rewrite <- Hfin in Hfl.
  assert (Hsave : save_record env record wp
                  = (Val tt, with_log (info_record_saved record)
                               (with_file (written (concat (sheet (excel w)) (new_row record)))
                                  wp))).
  { rewrite <- Hpx. apply (save_appends env record f wp); rewrite ?Hpx; auto. }
  assert (Hh := handle_email_candidate env new_processor email_id msg subject body record
                  w wp Hnew Hf Hs Hb Hp).
  rewrite Hsave in Hh.
  eexists. split; [exact Hh|]. split; [apply rows_written|].
  split.
  { apply handle_email_seen. cbn [mark_processed processed_emails].
    apply elem_of_union_l, elem_of_singleton_2. reflexivity. }
  intros t Hsame.
  cbn [mark_processed with_log with_file excel].
  set (file := written (concat (sheet (excel w)) (new_row record))).
  set (w0 := start_process file t).
  destruct (process_email env new_processor msg body subject w0) as [r0 wp0] eqn:Hp0.
  assert (Hagain0 := Hagain w0). rewrite Hp0 in Hagain0.
  destruct (process_email_frame env new_processor msg body subject w0 _ wp0 Hp0) as [_ Hx0].
  assert (Hcand : exists record', r0 = Val (Some record') /\ same_key record record').
  { rewrite Hagain in Hp.
    destruct (parsedate_to_datetime env h) as [dt|] eqn:Hparse.
    - injection Hp as <- _. injection Hagain0 as -> _. eexists. split; [reflexivity|].
      repeat split.
    - injection Hp as Hrec _. injection Hagain0 as -> _. eexists. split; [reflexivity|].
      destruct Hsame as [(h' & dt & Hd' & Hparse') | Hday].
      + rewrite Hdate in Hd'. injection Hd' as <-. congruence.
      + rewrite <- Hrec in *. cbn [candidate date] in Hday.
        split; [cbn [candidate date]; now symmetry | repeat split]. }
  destruct Hcand as (record' & -> & Hkey).
  assert (Hfound : record_exists record' wp0 = (Val true, wp0)).
  { apply (found_in_written (sheet (excel w)) record record' wp0 false c e);
      [exact Hx0 | exact Hfin | exact Hkey]. }
  assert (Hh0 := handle_email_candidate env new_processor email_id msg subject body record'
                   w0 wp0 (not_elem_of_empty _) Hf Hs Hb Hp0).
  rewrite (save_skips env record' wp0 Hfound) in Hh0.
  eexists. split; [exact Hh0|]. split.
  - cbn [mark_processed with_log excel]. exact Hx0.
  - cbn [mark_processed processed_emails]. apply elem_of_union_l, elem_of_singleton_2.
    reflexivity.
Qed.

Lemma pipeline_idempotent_witness :
  let env := mailbox [("1", zelle_message good_header)] true in
  let w := start_process new_file 0 in
  let record := candidate ZELLE zelle_pattern "John Smith sent you $75.00"
                  "You received a payment" (Finite false 7500 (-2)) demo_date (clock env 0) in
  exists w1,
    handle_email env new_processor "1" w = (Val true, w1) /\
    rows (sheet (excel w1)) = [stored_row record] /\
    handle_email env new_processor "1" w1 = (Val false, w1) /\
    exists w2, handle_email env new_processor "1" (start_process (excel w1) 7) = (Val true, w2) /\
               excel w2 = excel w1 /\ "1" ∈ processed_emails w2.
Proof.
  intros env w record.
  destruct (pipeline_idempotent env "1" (zelle_message good_header)
              "You received a payment" "John Smith sent you $75.00" record w (with_ticks 1 w))
    as (w1 & H1 & Hrows & H2 & Hrestart).
  - apply not_elem_of_empty.
  - reflexivity.
  - reflexivity.
  - reflexivity.
  - vm_compute. reflexivity.
  - reflexivity.
  - apply empty_frame_has_key_columns.
  - intros f _. reflexivity.
  - reflexivity.
  - exists w1. split; [exact H1|]. split; [exact Hrows|]. split; [exact H2|].
    apply (Hrestart 7%nat). left. exists good_header, demo_date. split; reflexivity.
Defined.

(** * Further properties of the code *)

(** ** Saving is append-only *)



(** ** The senders searched *)


Lemma elem_of_supported_senders (self : PaymentProcessor) (sender : string) :
  sender ∈ get_supported_senders self <->
  exists src p, (src, p) ∈ patterns self /\ sender ∈ from_emails p.
Proof.
  unfold get_supported_senders. rewrite merge_sort_Permutation.
  rewrite list_elem_of_In, in_flat_map. split.
  - intros ([src p] & Hin & Hs). exists src, p. split.
    + now apply list_elem_of_In.
    + now apply elem_of_elements, list_elem_of_In.
  - intros (src & p & Hin & Hs). exists (src, p). split.
    + now apply list_elem_of_In.
    + now apply list_elem_of_In, elem_of_elements.
Qed.


(** A message classified as a payment comes from a searched address: one of
    the supported senders occurs in its lower-cased sender. *)
Theorem identified_sender_is_supported (self : PaymentProcessor)
        (from_email subject : string) (src : PaymentSource) :
  identify_payment_source self from_email subject = Some src ->
  exists sender, sender ∈ get_supported_senders self /\
                 substring_of sender (lower from_email).
Proof.
  unfold identify_payment_source. intros H.
  apply first_matching_some in H as (i & p & Hi & ((sender & Hin & Hsub) & _) & _).
  exists sender. split; [|exact Hsub].
  apply elem_of_supported_senders. exists src, p. split; [|exact Hin].
  eapply list_elem_of_lookup_2, Hi.
Qed.

Lemma identified_sender_is_supported_witness :
  exists sender, sender ∈ get_supported_senders new_processor /\
                 substring_of sender (lower "Zelle <ALERT@zellepay.com>").
Proof.
  apply (identified_sender_is_supported new_processor "Zelle <ALERT@zellepay.com>"
           "You received a payment" ZELLE).
  vm_compute. reflexivity.
Defined.

(** ** Classification and the candidate record *)

Lemma lower_char_idempotent (a : ascii) : lower_char (lower_char a) = lower_char a.
Proof. ascii_cases a; vm_compute; reflexivity. Qed.

Lemma lower_idempotent (s : string) : lower (lower s) = lower s.
Proof.
  induction s as [|a s IH]; [reflexivity|].
  cbn [lower]. now rewrite lower_char_idempotent, IH.
Qed.

(** Classification is case-insensitive: two messages whose senders and whose
    subjects agree up to letter case are classified alike. In particular a
    message is classified as its lower-cased form is. *)
Theorem identify_payment_source_case_insensitive (self : PaymentProcessor)
        (from1 from2 subject1 subject2 : string) :
  lower from1 = lower from2 ->
  lower subject1 = lower subject2 ->
  identify_payment_source self from1 subject1 = identify_payment_source self from2 subject2.
Proof.
  intros Hf Hs. unfold identify_payment_source.
  induction (patterns self) as [|[src p] tbl IH]; [reflexivity|].
  cbn [first_matching]. unfold matches_sender, matches_subject.
  now rewrite Hf, Hs, IH.
Qed.

Lemma identify_payment_source_case_insensitive_witness :
  identify_payment_source new_processor "Venmo <VENMO@Venmo.com>" "John PAID YOU $5"
  = identify_payment_source new_processor (lower "Venmo <VENMO@Venmo.com>")
      (lower "John PAID YOU $5").
Proof.
  apply identify_payment_source_case_insensitive; symmetry; apply lower_idempotent.
Defined.

Lemma provider_lookup (from_email subject : string) (src : PaymentSource) :
  identify_payment_source new_processor from_email subject = Some src ->
  exists pattern, lookup_pattern (patterns new_processor) src = Some pattern /\
                  (src, pattern) ∈ patterns new_processor /\
                  accepts pattern from_email subject.
Proof.
  unfold identify_payment_source. intros H.
  apply first_matching_some in H as (i & p & Hi & Hacc & _).
  exists p. split; [|split; [eapply list_elem_of_lookup_2, Hi | exact Hacc]].
  destruct i as [|[|[|[|i]]]]; cbn in Hi; try discriminate;
    injection Hi as <- <-; reflexivity.
Qed.

Lemma provider_amount_outcome (text : string) :
  (exists why, extract_amount text Patterns.amount = Exc (PaymentProcessorError why)) \/
  (exists c e, extract_amount text Patterns.amount = Val (Finite false c e)).
Proof.
  unfold extract_amount.
  destruct (search Patterns.amount text false) as [m|] eqn:Hs; [|left; eauto].
  destruct (amount_group text m Hs) as (g & -> & Hg).
  destruct (of_string_number _ (remove_comma_number g Hg)) as [Hn | (c & e & Hn)];
    rewrite Hn; [left | right]; eauto.
Qed.

Section ProcessEmail.
Variable env : Env.

(** Whatever the processor table and the message, [process_email] lets no
    extraction error out: it returns, or raises one of the four exceptions
    that come from a sender or date header that is no string, a provider
    missing from the table, a pattern without a usable group 1, or a Date
    header with a number too large for the date parser. It never touches the
    ledger or the seen set. *)
Theorem process_email_contains_extraction_errors (self : PaymentProcessor)
        (msg : EmailMessage) (body subject : string) (w : World) :
  exists r w',
    process_email env self msg body subject w = (r, w') /\
    (match r with
     | Val _ => True
     | Exc e => e = AttributeError \/ e = KeyError \/ e = IndexError \/ e = OverflowError
     end) /\
    processed_emails w' = processed_emails w /\ excel w' = excel w.
Proof.
  destruct (process_email env self msg body subject w) as [r w'] eqn:H.
  exists r, w'. split; [reflexivity|].
  split; [|exact (process_email_frame env self msg body subject w r w' H)].
  rewrite process_email_unfold in H.
  destruct (msg_from msg) as [from_email|]; [|injection H as <- _; auto].
  destruct (identify_payment_source self from_email subject) as [src|];
    [|injection H as <- _; exact I].
  destruct (lookup_pattern (patterns self) src) as [pattern|]; [|injection H as <- _; auto].
  unfold extract_amount in H.
  destruct (search (amount_pattern pattern) (body +:+ " " +:+ subject) false) as [m|];
    [|injection H as <- _; exact I].
  destruct (group m 1) as [|[g|]]; [injection H as <- _; auto | | injection H as <- _; auto].
  destruct (of_string (remove_char "," g)) as [d|]; [|injection H as <- _; exact I].
  destruct (msg_date msg) as [h|]; [|injection H as <- _; auto].
  destruct (parsedate_overflow env h); [injection H as <- _; auto|].
  destruct (parsedate_to_datetime env h); injection H as <- _; exact I.
Qed.

(** With the providers' table and a message whose From and Date headers are
    plain strings, [process_email] returns unless the date parser overflows
    on the Date header: the only exception it can raise is that overflow,
    and then nothing has changed. When it returns no record the clock was
    not read; when no provider accepts the message nothing at all changes,
    not even the log. *)
Theorem process_email_plain_headers_return (msg : EmailMessage) (body subject : string)
        (w : World) (from_email date_header : string) :
  msg_from msg = HStr from_email ->
  msg_date msg = HStr date_header ->
  (parsedate_overflow env date_header = false ->
   exists r w',
     process_email env new_processor msg body subject w = (Val r, w') /\
     (r = None -> ticks w' = ticks w) /\
     (identify_payment_source new_processor from_email subject = None ->
      r = None /\ w' = w) /\
     (r <> None ->
      identify_payment_source new_processor from_email subject <> None /\
      (ticks w < ticks w')%nat)) /\
  (forall e w',
      process_email env new_processor msg body subject w = (Exc e, w') ->
      e = OverflowError /\ parsedate_overflow env date_header = true /\ w' = w).
Proof.
  intros Hfrom Hdate. rewrite process_email_unfold, Hfrom.
  destruct (identify_payment_source new_processor from_email subject) as [src|] eqn:Hsrc.
  2:{ split; [|discriminate]. intros _. exists None, w. repeat split; congruence. }
  destruct (provider_lookup from_email subject src Hsrc) as (pattern & Hlook & _ & _).
  rewrite Hlook, (provider_amount_pattern src pattern Hlook), Hdate.
  destruct (provider_amount_outcome (body +:+ " " +:+ subject)) as [(why & ->)|(c & e & ->)].
  - split; [|discriminate]. intros _.
    eexists None, _. split; [reflexivity|]. split; [reflexivity|].
    split; [discriminate | congruence].
  - destruct (parsedate_overflow env date_header).
    + split; [discriminate|]. intros e0 w' [= <- <-]. now repeat split.
    + split; [|destruct (parsedate_to_datetime env date_header); discriminate].
      intros _.
      destruct (parsedate_to_datetime env date_header) as [dt|];
        (eexists (Some _), _; split; [reflexivity|]);
        (split; [discriminate|]); (split; [discriminate|]); intros _;
        (split; [discriminate|]); cbn [with_ticks with_log ticks]; lia.
Qed.

(** A record that [process_email] builds with the providers' table carries
    the subject unchanged, a finite non-negative amount, a source whose
    provider accepts the sender and the subject, a payer name that is not
    empty and has no surrounding whitespace, and as its processing time the
    last clock reading of the call. Its date is the parsed Date header, or,
    when the header does not parse, the clock reading taken at the start of
    the call, with one warning logged. *)
Theorem process_email_record_sound (msg : EmailMessage) (body subject : string)
        (w w' : World) (record : PaymentRecord) :
  process_email env new_processor msg body subject w = (Val (Some record), w') ->
  email_subject record = subject /\
  (exists c e, amount record = Finite false c e) /\
  (exists from_email pattern,
      msg_from msg = HStr from_email /\
      (source record, pattern) ∈ patterns new_processor /\
      accepts pattern from_email subject) /\
  client_name record <> EmptyString /\
  strip (client_name record) = client_name record /\
  (ticks w < ticks w')%nat /\
  processed_at record = clock env (pred (ticks w')) /\
  (exists h, msg_date msg = HStr h /\
             match parsedate_to_datetime env h with
             | Some dt => date record = dt /\ log w' = log w
             | None => date record = clock env (ticks w) /\
                       log w' = warn_date_unparsed h :: log w
             end).
Proof.
  intros H.
  destruct (process_email_candidate env new_processor msg body subject w record w' H)
    as (from_email & src & pattern & d & h & Hfrom & Hsrc & Hpat & Hamt & Hdate & Hagain).
  rewrite (provider_amount_pattern src pattern Hpat) in Hamt.
  destruct (provider_amount_finite _ d Hamt) as (c & e & ->).
  destruct (provider_lookup from_email subject src Hsrc) as (pattern' & Hpat' & Hin & Hacc).
  rewrite Hpat in Hpat'. injection Hpat' as <-.
  assert (Hname : forall text pat,
             extract_client_name text pat <> EmptyString /\
             strip (extract_client_name text pat) = extract_client_name text pat).
  { intros text pat. unfold extract_client_name.
    destruct (search pat text true) as [m|]; [|split; [discriminate | reflexivity]].
    destruct (first_nonblank (groups m)) as [name|] eqn:Hf;
      [|split; [discriminate | reflexivity]].
    apply first_nonblank_some in Hf as (gs1 & g & gs2 & _ & _ & <- & Hne).
    split; [exact Hne | apply strip_idempotent]. }
  rewrite Hagain in H.
  destruct (parsedate_to_datetime env h) as [dt|] eqn:Hparse; injection H as <- <-;
    cbn [candidate email_subject amount source client_name processed_at
         with_ticks with_log ticks pred];
    (split; [reflexivity|]); (split; [eauto|]); (split; [eauto|]);
    (split; [apply Hname|]); (split; [apply Hname|]); (split; [lia|]);
    (split; [reflexivity|]); exists h; (split; [exact Hdate|]); rewrite Hparse;
    split; reflexivity.
Qed.

End ProcessEmail.

Lemma process_email_plain_headers_return_witness :
  exists r w',
    process_email quiet_env new_processor no_amount_message "John Smith sent you money"
      "You received a payment" (start_process new_file 0) = (Val r, w') /\
    (r = None -> ticks w' = 0%nat).
Proof.
  destruct (process_email_plain_headers_return quiet_env no_amount_message
              "John Smith sent you money" "You received a payment" (start_process new_file 0)
              "Zelle <alert@zellepay.com>" "Mon, 15 Jan 2024 10:30:00 +0000"
              eq_refl eq_refl) as [Hret _].
  destruct (Hret eq_refl) as (r & w' & H & Ht & _).
  exists r, w'. split; [exact H | exact Ht].
Defined.

Lemma process_email_record_sound_witness :
  let env := mailbox [] true in
  let record := candidate ZELLE zelle_pattern "John Smith sent you $75.00"
                  "You received a payment" (Finite false 7500 (-2)) demo_date (clock env 0) in
  email_subject record = "You received a payment" /\
  (exists c e, amount record = Finite false c e) /\
  processed_at record = clock env 0.
Proof.
  intros env record.
  destruct (process_email_record_sound env (zelle_message good_header)
              "John Smith sent you $75.00" "You received a payment"
              (start_process new_file 0) (with_ticks 1 (start_process new_file 0)) record)
    as (Hs & Ha & _ & _ & _ & _ & Hp & _).
  - vm_compute. reflexivity.
  - split; [exact Hs|]. split; [exact Ha | exact Hp].
Defined.

(** ** Characters of a payer name *)










(** ** Invariants of a check cycle *)

Section SaveEffect.
Variable env : Env.

(** What a save leaves behind: the seen set and the clock as they were, and
    the file either as it was, or rewritten with the record's row appended to
    what was loaded (only when the save returned), or as a failed write of
    that frame left it (only when the save raised). *)
Lemma save_record_effect record w r w' :
  save_record env record w = (r, w') ->
  processed_emails w' = processed_emails w /\ ticks w' = ticks w /\
  (excel w' = excel w \/
   r = Val tt /\ excel w' = written (concat (loaded w) (new_row record)) \/
   r = Exc StorageError /\ write_ok env (concat (loaded w) (new_row record)) = false).
Proof.
  destruct (record_exists_total record w) as (b & w0 & He & (Hp & Hx & Ht)).
  rewrite (save_record_unfold env record w b w0 He). destruct b.
  - intros [= <- <-]. cbn [with_log processed_emails ticks excel]. auto.
  - rewrite append_record_spec.
    assert (Hl : loaded w0 = loaded w) by (unfold loaded; now rewrite Hx).
    assert (Hal : processed_emails (after_load w0) = processed_emails w /\
                  ticks (after_load w0) = ticks w).
    { unfold after_load.
      destruct (readable (excel w0)); cbn [with_log processed_emails ticks]; now split. }
    destruct Hal as (Hap & Hat). rewrite Hl.
    destruct (write_ok env (concat (loaded w) (new_row record))); intros [= <- <-];
      cbn [with_log with_file processed_emails ticks excel]; auto 10.
Qed.
End SaveEffect.

Section CycleFacts.
Variable env : Env.
Variable self : PaymentProcessor.

(** What handling one message can do to the seen set and to the file. *)
Lemma handle_email_effect email_id w r w' :
  handle_email env self email_id w = (r, w') ->
  (processed_emails w' = processed_emails w \/
   (email_id ∉ processed_emails w) /\
   processed_emails w' = {[email_id]} ∪ processed_emails w /\
   exists msg, fetch_email env email_id = Val (Some msg)) /\
  (counted r = 1%nat -> processed_emails w' = {[email_id]} ∪ processed_emails w /\
                        (email_id ∉ processed_emails w)) /\
  (excel w' = excel w \/
   (counted r = 1%nat /\
    exists record, excel w' = written (concat (loaded w) (new_row record))) \/
   exists df, write_ok env df = false).
Proof.
  rewrite handle_email_unfold.
  destruct (decide (email_id ∈ processed_emails w)) as [Hin|Hnew].
  { intros [= <- <-]. cbn [counted]. split; [now left|]. split; [discriminate | now left]. }
  destruct (fetch_email env email_id) as [[msg|]|e0].
  2:{ intros [= <- <-]. cbn [counted]. split; [now left|]. split; [discriminate | now left]. }
  2:{ intros [= <- <-]. cbn [counted]. split; [now left|]. split; [discriminate | now left]. }
  destruct (decode_subject msg) as [subject|e0].
  2:{ intros [= <- <-]. cbn [counted]. split; [now left|]. split; [discriminate | now left]. }
  destruct (extract_body msg) as [body|e0].
  2:{ intros [= <- <-]. cbn [counted]. split; [now left|]. split; [discriminate | now left]. }
  destruct (process_email env self msg body subject w) as [[[record|]|e0] wp] eqn:Hp;
    apply process_email_frame in Hp as [Hpp Hpx].
  - assert (Hl : loaded wp = loaded w) by (unfold loaded; now rewrite Hpx).
    destruct (save_record env record wp) as [rs ws] eqn:Hs.
    destruct (save_record_outcome env record wp) as [ws' [Hs'|Hs']];
      rewrite Hs in Hs'; injection Hs' as -> <-;
      apply save_record_effect in Hs as (Hsp & _ & Hsx);
      intros [= <- <-]; cbn [counted mark_processed with_log processed_emails excel];
      rewrite Hsp, Hpp.
    + split; [right; eauto|]. split; [auto|].
      destruct Hsx as [Hsx|[[_ Hsx]|[Hsx _]]]; [| |discriminate];
        rewrite Hsx, ?Hpx, ?Hl; [now left|].
      right. left. split; [reflexivity | eauto].
    + split; [right; eauto|]. split; [discriminate|].
      destruct Hsx as [Hsx|[[Hsx _]|[_ Hsx]]]; [|discriminate|].
      * left. now rewrite Hsx.
      * right. right. eauto.
  - intros [= <- <-]. cbn [counted mark_processed processed_emails excel]. rewrite Hpp.
    split; [right; eauto|]. split; [discriminate | now left].
  - intros [= <- <-]. cbn [counted]. split; [now left|]. split; [discriminate | now left].
Qed.

(** An invariant of the pair (count, state) that survives a log entry and the
    handling of any listed message holds after a check cycle. *)
Lemma cycle_invariant (P : nat -> World -> Prop) :
  (forall n w entry, P n w -> P n (with_log entry w)) ->
  (forall n w email_id r w',
      listed env self email_id ->
      P n w -> handle_email env self email_id w = (r, w') -> P (counted r + n)%nat w') ->
  forall w, P 0%nat w ->
            P (process_new_emails env self w).1 (process_new_emails env self w).2.
Proof.
  intros Hlog Hstep.
  assert (Hloop : forall email_ids n w,
             (forall email_id, email_id ∈ email_ids -> listed env self email_id) ->
             P n w ->
             P (for_each_email env self email_ids n w).1.2
               (for_each_email env self email_ids n w).2).
  { induction email_ids as [|email_id rest IH]; intros n w Hl HP; [exact HP|].
    cbn [for_each_email].
    assert (Hh := Hstep n w email_id _ _ (Hl email_id (list_elem_of_here _ _)) HP
                    (surjective_pairing _)).
    destruct (handle_email env self email_id w) as [[b|e] w']; cbn [fst snd counted] in *.
    - apply IH; [intros i Hi; apply Hl; now apply list_elem_of_further|].
      destruct b; exact Hh.
    - exact Hh. }
  assert (Hsender : forall sender n w,
             sender ∈ get_supported_senders self -> P n w ->
             P (process_sender env self sender n w).1 (process_sender env self sender n w).2).
  { intros sender n w Hs HP. unfold process_sender.
    destruct (search_emails env sender) as [email_ids|e] eqn:Hsearch.
    - assert (H := Hloop email_ids n (with_log (debug_found sender (length email_ids)) w)).
      change (logger (debug_found sender (length email_ids)) w).2
        with (with_log (debug_found sender (length email_ids)) w).
      destruct (for_each_email env self email_ids n _) as [[[[]|e] k] w'];
        cbn [fst snd] in *.
      + apply H; [|now apply Hlog]. intros i Hi. now exists sender, email_ids.
      + assert (HP' : P k w').
        { apply H; [|now apply Hlog]. intros i Hi. now exists sender, email_ids. }
        destruct e; apply (Hlog k w' _ HP').
    - cbn [fst snd]. destruct e; apply (Hlog n w _ HP). }
  unfold process_new_emails.
  assert (Hall : forall senders n w,
             (forall sender, sender ∈ senders -> sender ∈ get_supported_senders self) ->
             P n w ->
             P (for_each_sender env self senders n w).1 (for_each_sender env self senders n w).2).
  { induction senders as [|sender rest IH]; intros n w Hsub HP; [exact HP|].
    cbn [for_each_sender].
    assert (H := Hsender sender n w (Hsub sender (list_elem_of_here _ _)) HP).
    destruct (process_sender env self sender n w) as [k w']. cbn [fst snd] in H.
    apply IH; [|exact H]. intros s Hs. apply Hsub. now apply list_elem_of_further. }
  intros w HP. apply Hall; [auto | exact HP].
Qed.

End CycleFacts.

Section Cycle.
Variable env : Env.
Variable self : PaymentProcessor.

(** Every increment of the count goes with a message newly marked as seen:
    the number a check cycle returns is at most the number of identifiers
    the cycle added to the seen set. *)
Theorem process_new_emails_count_bound (w : World) :
  ((process_new_emails env self w).1 + size (processed_emails w)
   <= size (processed_emails (process_new_emails env self w).2))%nat.
Proof.
  apply (cycle_invariant env self
           (fun n w' => (n + size (processed_emails w) <= size (processed_emails w'))%nat)).
  - intros n w' entry H. exact H.
  - intros n w1 email_id r w2 _ H Hh.
    apply handle_email_effect in Hh as (Hseen & Hcount & _).
    destruct (counted r) as [|[|k]] eqn:Hc.
    + destruct Hseen as [->|(Hnew & -> & _)]; [exact H|].
      rewrite size_union by (apply disjoint_singleton_l; exact Hnew). lia.
    + destruct (Hcount eq_refl) as [-> Hnew].
      rewrite size_union by (apply disjoint_singleton_l; exact Hnew).
      rewrite size_singleton. lia.
    + destruct r as [[]|]; discriminate.
  - cbn. lia.
Qed.

(** A check cycle marks as seen only messages that a search for a supported
    sender listed and whose fetch returned a message; everything else in the
    seen set was there before. *)
Theorem process_new_emails_marks_only_fetched (w : World) (email_id : string) :
  email_id ∈ processed_emails (process_new_emails env self w).2 ->
  email_id ∈ processed_emails w \/
  listed env self email_id /\ exists msg, fetch_email env email_id = Val (Some msg).
Proof.
  revert email_id.
  apply (cycle_invariant env self
           (fun _ w' => forall email_id,
                email_id ∈ processed_emails w' ->
                email_id ∈ processed_emails w \/
                listed env self email_id /\
                exists msg, fetch_email env email_id = Val (Some msg))).
  - intros n w' entry H. exact H.
  - intros n w1 i r w2 Hl H Hh j Hj.
    apply handle_email_effect in Hh as (Hseen & _ & _).
    destruct Hseen as [Heq|(_ & Heq & Hmsg)]; rewrite Heq in Hj; [now apply H|].
    apply elem_of_union in Hj as [Hj|Hj]; [|now apply H].
    apply elem_of_singleton in Hj as ->. right. now split.
  - intros j Hj. now left.
Qed.

(** Over a readable ledger, and as long as no write fails, a check cycle is
    append-only: the file stays readable, every row it held is kept in
    place, the rows added come after them, each is the stored row of a
    payment record, and there are at most as many of them as the count the
    cycle returns. (A write that fails leaves the file as the failure left
    it, and nothing of this is kept.) *)
Theorem process_new_emails_append_only (w : World) :
  (forall df, write_ok env df = true) ->
  readable (excel w) = true ->
  let cycle := process_new_emails env self w in
  readable (excel cycle.2) = true /\
  exists extra,
    rows (stored_frame (sheet (excel cycle.2)))
    = (rows (stored_frame (sheet (excel w))) ++ extra)%list /\
    (length extra <= cycle.1)%nat /\
    Forall (fun row => exists record, row = stored_row record) extra.
Proof.
  intros Hdisk Hr. cbv zeta.
  apply (cycle_invariant env self
           (fun n w' =>
              readable (excel w') = true /\
              exists extra,
                rows (stored_frame (sheet (excel w')))
                = (rows (stored_frame (sheet (excel w))) ++ extra)%list /\
                (length extra <= n)%nat /\
                Forall (fun row => exists record, row = stored_row record) extra)).
  - intros n w' entry H. exact H.
  - intros n w1 i r w2 _ (Hr1 & extra & Hrows & Hlen & Hall) Hh.
    apply handle_email_effect in Hh as (_ & _ & [Hx|[(Hc & record & Hx)|(df & Hdf)]]);
      [| |rewrite Hdisk in Hdf; discriminate Hdf]; rewrite Hx.
    + split; [exact Hr1|]. exists extra. split; [exact Hrows|]. split; [lia | exact Hall].
    + split; [reflexivity|]. exists (extra ++ [stored_row record])%list.
      cbn [written sheet]. rewrite stored_frame_idempotent, rows_written.
      unfold loaded. rewrite Hr1, Hrows, Hc, <- app_assoc.
      split; [reflexivity|]. split; [rewrite length_app; cbn [length]; lia|].
      apply Forall_app. split; [exact Hall|]. constructor; [eauto | constructor].
  - split; [exact Hr|]. exists []. rewrite app_nil_r. repeat split; constructor.
Qed.

(** A cycle with nothing to do: when every search fails or lists only
    messages that are already seen or that the fetch does not return, the
    cycle reports 0 and changes nothing but the log. *)
Theorem process_new_emails_idle (w : World) :
  (forall email_id, listed env self email_id ->
                    email_id ∈ processed_emails w \/ fetch_email env email_id = Val None) ->
  (process_new_emails env self w).1 = 0%nat /\
  same_but_log w (process_new_emails env self w).2.
Proof.
  intros Hidle.
  apply (cycle_invariant env self (fun n w' => n = 0%nat /\ same_but_log w w')).
  - intros n w' entry [Hn Hs]. split; [exact Hn | now apply same_but_log_with_log].
  - intros n w1 i r w2 Hl [-> (Hp & Hx & Ht)] Hh.
    rewrite handle_email_unfold in Hh.
    destruct (Hidle i Hl) as [Hin|Hnone].
    + rewrite <- Hp in Hin. rewrite decide_True in Hh by exact Hin.
      injection Hh as <- <-. cbn [counted]. now repeat split.
    + destruct (decide (i ∈ processed_emails w1)); rewrite ?Hnone in Hh;
        injection Hh as <- <-; cbn [counted]; now repeat split.
  - split; [reflexivity | apply same_but_log_refl].
Qed.

End Cycle.

Lemma process_new_emails_append_only_witness :
  let env := mailbox [("1", zelle_message good_header)] true in
  let cycle := process_new_emails env new_processor (start_process new_file 0) in
  exists extra,
    rows (stored_frame (sheet (excel cycle.2))) = extra /\ (length extra <= cycle.1)%nat.
Proof.
  intros env cycle.
  destruct (process_new_emails_append_only env new_processor (start_process new_file 0)
              (fun _ => eq_refl) eq_refl) as (_ & extra & Hrows & Hlen & _).
  exists extra. split; [exact Hrows | exact Hlen].
Defined.

Lemma process_new_emails_marks_only_fetched_witness :
  let env := mailbox [("1", zelle_message good_header)] true in
  listed env new_processor "1" /\
  exists msg, fetch_email env "1" = Val (Some msg).
Proof.
  intros env.
  destruct (process_new_emails_marks_only_fetched env new_processor
              (start_process new_file 0) "1") as [H|H].
  - vm_compute. reflexivity.
  - exfalso. revert H. apply not_elem_of_empty.
  - exact H.
Defined.

Lemma process_new_emails_idle_witness :
  (process_new_emails offline_env new_processor (start_process new_file 0)).1 = 0%nat /\
  same_but_log (start_process new_file 0)
    (process_new_emails offline_env new_processor (start_process new_file 0)).2.
Proof.
  apply process_new_emails_idle.
  intros email_id (sender & email_ids & _ & Hsearch & _). discriminate Hsearch.
Defined.

(** ** The summary over a ledger the tracker wrote *)

Lemma cell_stored (r : gmap string Cell) (col : string) :
  cell (stored_cell <$> r) col = stored_cell (cell r col).
Proof. unfold cell. rewrite lookup_fmap. now destruct (r !! col). Qed.

Lemma amount_cell_stored (c : Cell) :
  match c with CStr _ => False | _ => True end -> amount_cell (stored_cell c).
Proof. destruct c as [s|d|f|]; cbn; trivial. now destruct (to_float d). Qed.

Lemma summable_written df record :
  summable df -> summable (stored_frame (concat df (new_row record))).
Proof.
  intros (Ha & Hn & Hs & Hrows). unfold summable.
  assert (Hcol : forall c, c ∈ columns df ->
                           c ∈ columns (stored_frame (concat df (new_row record)))).
  { intros c Hc. unfold stored_frame, concat; cbn [columns]. apply elem_of_app. now left. }
  split; [now apply Hcol|]. split; [now apply Hcol|]. split; [now apply Hcol|].
  rewrite rows_written. apply Forall_app. split.
  - unfold stored_frame; cbn [rows]. apply Forall_fmap.
    eapply Forall_impl; [exact Hrows|]. intros r Hr. unfold compose. rewrite cell_stored.
    apply amount_cell_stored. cbn beta in Hr.
    destruct (cell r "Amount"); cbn [amount_cell] in Hr; tauto.
  - constructor; [|constructor].
    destruct (stored_row_cells record) as (_ & -> & _). now apply amount_cell_stored.
Qed.

Lemma numeric_amount_cells cells :
  Forall amount_cell cells -> exists fs, numeric cells = Val fs.
Proof.
  induction 1 as [|c cells Hc _ (fs & IH)]; [now exists []|].
  destruct c as [s|d|f|]; cbn [amount_cell] in Hc; try contradiction; cbn [numeric];
    rewrite IH; eauto.
Qed.

Lemma stats_of_summable w :
  readable (excel w) = true -> summable (sheet (excel w)) ->
  exists m, (get_summary_stats w).1 = Val m /\ m !! "error" = None /\
            (rows (sheet (excel w)) <> [] ->
             m !! "total_records" = Some (SInt (length (rows (sheet (excel w)))))).
Proof.
  intros Hr (Ha & Hn & Hs & Hrows). rewrite get_summary_stats_unfold. cbv zeta.
  unfold loaded. rewrite Hr.
  destruct (bool_decide (rows (sheet (excel w)) = [])) eqn:Hempty.
  { cbn [orb fst]. exists empty_stats. split; [reflexivity|]. split; [reflexivity|].
    intros Hne. now apply bool_decide_eq_true_1 in Hempty. }
  destruct (bool_decide (columns (sheet (excel w)) = [])) eqn:Hcols.
  { apply bool_decide_eq_true_1 in Hcols. rewrite Hcols in Ha. inversion Ha. }
  cbn [orb]. rewrite !column_present by assumption.
  destruct (numeric_amount_cells ((fun r => cell r "Amount") <$> rows (sheet (excel w))))
    as (fs & ->).
  { now apply Forall_fmap. }
  cbn [fst]. eexists. split; [reflexivity|]. split; [reflexivity|].
  intros _. apply lookup_insert_eq.
Qed.

Lemma filter_none {A} (P : A -> Prop) `{forall x, Decision (P x)} (l : list A) :
  Forall (fun x => ~ P x) l -> filter P l = [].
Proof.
  induction 1 as [|x l Hx _ IH]; [reflexivity|].
  now rewrite filter_cons_False.
Qed.

Section AfterCycle.
Variable env : Env.
Variable self : PaymentProcessor.

(** Over a readable ledger that has the six columns, and as long as no write
    fails, a check cycle leaves the header as it is: no column is added,
    dropped or moved. *)
Theorem process_new_emails_keeps_header (w : World) :
  (forall df, write_ok env df = true) ->
  readable (excel w) = true ->
  Forall (fun c => c ∈ columns (sheet (excel w))) ledger_columns ->
  columns (sheet (excel (process_new_emails env self w).2)) = columns (sheet (excel w)).
Proof.
  intros Hdisk Hr Hcols.
  apply (cycle_invariant env self
           (fun _ w' => readable (excel w') = true /\
                        columns (sheet (excel w')) = columns (sheet (excel w)))).
  - intros n w' entry H. exact H.
  - intros n w1 i r w2 _ [Hr1 Hc1] Hh.
    apply handle_email_effect in Hh as (_ & _ & [Hx|[(_ & record & Hx)|(df & Hdf)]]);
      [| |rewrite Hdisk in Hdf; discriminate Hdf]; rewrite Hx.
    + now split.
    + split; [reflexivity|]. unfold loaded. rewrite Hr1.
      unfold written, stored_frame, concat, new_row, frame_of_dict; cbn [sheet columns].
      rewrite filter_none, app_nil_r; [exact Hc1|].
      rewrite Hc1. eapply Forall_impl; [exact Hcols|]. intros c Hc. cbn beta. tauto.
  - now split.
Qed.

(** Statistics after a check cycle in which no write fails, over a readable
    ledger whose Amount column holds numbers: the summary is never the error
    entry, and over a ledger with rows its record count is the number of
    rows. Such a cycle keeps the ledger in that form. *)
Theorem stats_after_cycle_without_error (w : World) :
  (forall df, write_ok env df = true) ->
  readable (excel w) = true ->
  summable (sheet (excel w)) ->
  let w' := (process_new_emails env self w).2 in
  readable (excel w') = true /\ summable (sheet (excel w')) /\
  exists m, (get_summary_stats w').1 = Val m /\ m !! "error" = None /\
            (rows (sheet (excel w')) <> [] ->
             m !! "total_records" = Some (SInt (length (rows (sheet (excel w')))))).
Proof.
  intros Hdisk Hr Hsum. cbv zeta.
  assert (H : readable (excel (process_new_emails env self w).2) = true /\
              summable (sheet (excel (process_new_emails env self w).2))).
  { apply (cycle_invariant env self
             (fun _ w' => readable (excel w') = true /\ summable (sheet (excel w')))).
    - intros n w' entry H. exact H.
    - intros n w1 i r w2 _ [Hr1 Hs1] Hh.
      apply handle_email_effect in Hh as (_ & _ & [Hx|[(_ & record & Hx)|(df & Hdf)]]);
        [| |rewrite Hdisk in Hdf; discriminate Hdf]; rewrite Hx.
      + now split.
      + split; [reflexivity|]. unfold loaded. rewrite Hr1. cbn [written sheet].
        now apply summable_written.
    - now split. }
  destruct H as [Hr' Hs']. split; [exact Hr'|]. split; [exact Hs'|].
  now apply stats_of_summable.
Qed.

End AfterCycle.

Lemma remove_dups_length {A} `{EqDecision A} (l : list A) :
  (length (remove_dups l) <= length l)%nat.
Proof.
  induction l as [|x l IH]; [reflexivity|]. cbn [remove_dups length].
  destruct (decide_rel elem_of x l); cbn [length]; lia.
Qed.

Lemma omap_length {A B} (f : A -> option B) (l : list A) :
  (length (omap f l) <= length l)%nat.
Proof.
  induction l as [|x l IH]; [reflexivity|]. cbn [omap list_omap length].
  destruct (f x); cbn [length]; lia.
Qed.

(** The summary is read-only: it changes nothing but the log. Its record
    count is the number of rows of the loaded frame (when the frame has
    columns), the number of distinct payers never exceeds it, and over an
    unreadable file the summary is that of the empty store. *)
Theorem get_summary_stats_read_only (w : World) :
  same_but_log w (get_summary_stats w).2 /\
  exists m,
    (get_summary_stats w).1 = Val m /\
    (forall n, m !! "total_records" = Some (SInt n) ->
               columns (loaded w) <> [] -> n = length (rows (loaded w))) /\
    (forall n k, m !! "total_records" = Some (SInt n) ->
                 m !! "unique_clients" = Some (SInt k) -> (k <= n)%nat) /\
    (readable (excel w) = false -> m = empty_stats).
Proof.
  assert (Hload : same_but_log w (after_load w)).
  { unfold after_load. destruct (readable (excel w)); now repeat split. }
  assert (Hlen : forall (df : DataFrame) col cells,
             column df col = Val cells -> (nunique cells <= length (rows df))%nat).
  { intros df col cells. unfold column. case_decide; [|discriminate]. intros [= <-].
    unfold nunique, texts.
    etransitivity; [apply remove_dups_length|].
    etransitivity; [apply omap_length|]. now rewrite length_fmap. }
  assert (Herr : forall e,
             (forall n, error_stats e !! "total_records" = Some (SInt n) ->
                        columns (loaded w) <> [] -> n = length (rows (loaded w))) /\
             (forall n k, error_stats e !! "total_records" = Some (SInt n) ->
                          error_stats e !! "unique_clients" = Some (SInt k) -> (k <= n)%nat)).
  { intros e. split; intros n; discriminate. }
  assert (Hunread : readable (excel w) = false -> rows (loaded w) = []).
  { intros H. unfold loaded. now rewrite H. }
  rewrite get_summary_stats_unfold. cbv zeta.
  destruct (bool_decide (rows (loaded w) = [])) eqn:Hrows.
  { cbn [orb fst snd]. split; [exact Hload|]. exists empty_stats.
    split; [reflexivity|]. apply bool_decide_eq_true_1 in Hrows.
    split; [|split; [intros n k _; discriminate | reflexivity]].
    intros n Hn _. rewrite Hrows. unfold empty_stats in Hn.
    rewrite lookup_insert_eq in Hn. now injection Hn as <-. }
  apply bool_decide_eq_false_1 in Hrows.
  destruct (bool_decide (columns (loaded w) = [])) eqn:Hcols.
  { cbn [orb fst snd]. split; [exact Hload|]. exists empty_stats.
    split; [reflexivity|]. apply bool_decide_eq_true_1 in Hcols.
    split; [intros n _ Hne; contradiction|].
    split; [intros n k _; discriminate | reflexivity]. }
  cbn [orb].
  destruct (column (loaded w) "Amount") as [amounts|e].
  2:{ cbn [fst snd]. split; [now apply same_but_log_with_log|]. exists (error_stats e).
      split; [reflexivity|]. split; [apply Herr|]. split; [apply Herr|].
      intros H. now apply Hunread in H. }
  destruct (numeric amounts) as [fs|e].
  2:{ cbn [fst snd]. split; [now apply same_but_log_with_log|]. exists (error_stats e).
      split; [reflexivity|]. split; [apply Herr|]. split; [apply Herr|].
      intros H. now apply Hunread in H. }
  destruct (column (loaded w) "Client Name") as [names|e] eqn:Hnames.
  2:{ cbn [fst snd]. split; [now apply same_but_log_with_log|]. exists (error_stats e).
      split; [reflexivity|]. split; [apply Herr|]. split; [apply Herr|].
      intros H. now apply Hunread in H. }
  destruct (column (loaded w) "Source") as [sources|e].
  2:{ cbn [fst snd]. split; [now apply same_but_log_with_log|]. exists (error_stats e).
      split; [reflexivity|]. split; [apply Herr|]. split; [apply Herr|].
      intros H. now apply Hunread in H. }
  cbn [fst snd]. split; [exact Hload|]. eexists. split; [reflexivity|].
  assert (Hk : forall n total avg hi lo clients by_source,
             full_stats n total avg hi lo clients by_source !! "unique_clients"
             = Some (SInt clients)) by reflexivity.
  split; [|split].
  - intros n Hn _. unfold full_stats in Hn. rewrite lookup_insert_eq in Hn.
    now injection Hn as <-.
  - intros n k Hn Hkk. rewrite Hk in Hkk. injection Hkk as <-.
    unfold full_stats in Hn. rewrite lookup_insert_eq in Hn. injection Hn as <-.
    now apply (Hlen _ _ _ Hnames).
  - intros H. now apply Hunread in H.
Qed.

Lemma process_new_emails_keeps_header_witness :
  let env := mailbox [("1", zelle_message good_header)] true in
  columns (sheet (excel (process_new_emails env new_processor (start_process new_file 0)).2))
  = ledger_columns.
Proof.
  intros env.
  apply (process_new_emails_keeps_header env new_processor (start_process new_file 0)).
  - intros df. reflexivity.
  - reflexivity.
  - apply Forall_forall. intros c Hc. exact Hc.
Defined.

Lemma stats_after_cycle_without_error_witness :
  let env := mailbox [("1", zelle_message good_header)] true in
  let w' := (process_new_emails env new_processor (start_process new_file 0)).2 in
  exists m, (get_summary_stats w').1 = Val m /\ m !! "error" = None.
Proof.
  intros env w'.
  destruct (stats_after_cycle_without_error env new_processor (start_process new_file 0))
    as (_ & _ & m & Hm & Herr & _).
  - intros df. reflexivity.
  - reflexivity.
  - unfold summable. cbn [start_process excel new_file sheet empty_frame columns rows].
    unfold ledger_columns. rewrite !elem_of_cons.
    split; [tauto|]. split; [tauto|]. split; [tauto | constructor].
  - exists m. split; [exact Hm | exact Herr].
Defined.

Lemma get_summary_stats_read_only_witness :
  (get_summary_stats unreadable_ledger).1 = Val empty_stats /\
  same_but_log unreadable_ledger (get_summary_stats unreadable_ledger).2.
Proof.
  destruct (get_summary_stats_read_only unreadable_ledger) as (Hlog & m & Hm & _ & _ & He).
  split; [|exact Hlog]. rewrite Hm. f_equal. apply He. reflexivity.
Defined.

(** ** Mail that is no payment *)


